(** * nevopy.neat.genes: node genes, connection genes and their alignment

    A shallow embedding of [src/nevopy/neat/genes.py].  Python objects are
    records holding the object's attributes; a method that mutates [self]
    takes the record and returns the record after the call, together with the
    outcome of the call (a returned value or a raised exception).  Python's
    [float] is the IEEE 754 binary64 type, here Rocq's primitive [float];
    Python's [int] is [Z]; an attribute that may hold [None] is an [option].
    References between objects (a node's adjacency lists, a connection's end
    points, a hidden node's parents) are addresses into a heap, because nodes
    and connections refer to each other cyclically. *)

From Stdlib Require Import ZArith String Floats.
From stdpp Require Import base option list gmap strings pretty sorting.

(** ** Exceptions and outcomes *)

(** The three exception classes the module declares, and Python's built-in
    [TypeError], which [sorted] raises when it has to order [None]. *)
Inductive Exception :=
  | NodeIdException
  | ConnectionIdException
  | NodeParentsException
  | TypeError.

(** What a call does: it returns a value or raises. *)
Inductive Outcome (A : Type) :=
  | Returns (a : A)
  | Raises (e : Exception).
Arguments Returns {A} a.
Arguments Raises {A} e.

(** Addresses of node objects and of connection objects. *)
Abbreviation node_ref := positive.
Abbreviation conn_ref := positive.

(** ** uuid *)

Module uuid.
(** The source of version-4 UUIDs of the running process.  [hex s k] is the
    [.hex] rendering (32 hexadecimal digits) of the UUID that the [k]-th
    call of [uuid.uuid4()] returns, and [issued s] counts the calls made so
    far.  The values are random: nothing is known about them. *)
Record source := { hex : nat → string; issued : nat }.

(** [uuid.uuid4().hex] *)
Definition uuid4_hex (s : source) : string * source :=
  (hex s (issued s), {| hex := hex s; issued := S (issued s) |}).
End uuid.

(** ** class NodeGene *)

Module NodeGene.

(** [class Type(Enum)] *)
Inductive Type_ := INPUT | BIAS | HIDDEN | OUTPUT.

#[global] Instance Type_eq_dec : EqDecision Type_.
Proof. solve_decision. Defined.

Record t := {
  _id : option Z;
  _type : Type_;
  _initial_activation : float;
  _activation : float;
  _function : float → float;
  _parent_connection_nodes : option (node_ref * node_ref);
  in_connections : list conn_ref;
  out_connections : list conn_ref;
  _temp_id : option string;
  debug_info : option string
}.

(** What reading the [id] property can give: an [int], a [str] or [None]. *)
Inductive id_value :=
  | Int (i : Z)
  | Str (s : string)
  | NoneId.

(** Python's [==] on such values. *)
Definition py_eq (a b : id_value) : bool :=
  match a, b with
  | Int i, Int j => bool_decide (i = j)
  | Str s, Str u => bool_decide (s = u)
  | NoneId, NoneId => true
  | _, _ => false
  end.

(** [uuid.uuid4().hex[:12]] *)
Definition temp_token (h : string) : string := substring 0 12 h.

(** [__init__]; [uuid4] is called only when [node_id] is [None]. *)
Definition __init__ (node_id : option Z) (node_type : Type_)
    (activation_func : float → float) (initial_activation : float)
    (parent_connection_nodes : option (node_ref * node_ref))
    (debug_info : option string) (s : uuid.source) : t * uuid.source :=
  let '(temp_id, s') :=
    match node_id with
    | Some _ => (None, s)
    | None => let '(h, s') := uuid.uuid4_hex s in (Some (temp_token h), s')
    end in
  ({| _id := node_id;
      _type := node_type;
      _initial_activation := initial_activation;
      _activation := initial_activation;
      _function := activation_func;
      _parent_connection_nodes := parent_connection_nodes;
      in_connections := [];
      out_connections := [];
      _temp_id := temp_id;
      debug_info := debug_info |}, s').

(** The [id] property. *)
Definition id (self : t) : id_value :=
  match _id self with
  | Some i => Int i
  | None => match _temp_id self with Some tok => Str tok | None => NoneId end
  end.

(** The [id] setter; the second component is [self] after the call. *)
Definition set_id (self : t) (new_id : Z) : Outcome unit * t :=
  match _id self with
  | Some _ => (Raises NodeIdException, self)
  | None =>
      (Returns (),
       {| _id := Some new_id;
          _type := _type self;
          _initial_activation := _initial_activation self;
          _activation := _activation self;
          _function := _function self;
          _parent_connection_nodes := _parent_connection_nodes self;
          in_connections := in_connections self;
          out_connections := out_connections self;
          _temp_id := None;
          debug_info := debug_info self |})
  end.

Definition is_id_temp (self : t) : bool :=
  match _id self with None => true | Some _ => false end.

(** The [type] and [activation] properties. *)
Definition type (self : t) : Type_ := _type self.
Definition activation (self : t) : float := _activation self.

(** The [parent_connection_nodes] property. *)
Definition parent_connection_nodes (self : t)
    : Outcome (option (node_ref * node_ref)) :=
  if decide (_type self ≠ HIDDEN) then Raises NodeParentsException
  else Returns (_parent_connection_nodes self).

Definition set_activation (self : t) (a : float) : t :=
  {| _id := _id self;
     _type := _type self;
     _initial_activation := _initial_activation self;
     _activation := a;
     _function := _function self;
     _parent_connection_nodes := _parent_connection_nodes self;
     in_connections := in_connections self;
     out_connections := out_connections self;
     _temp_id := _temp_id self;
     debug_info := debug_info self |}.

Definition activate (self : t) (x : float) : t :=
  set_activation self (_function self x).

Definition shallow_copy (self : t) (debug_info : option string)
    (s : uuid.source) : t * uuid.source :=
  __init__ (_id self) (_type self) (_function self)
           (_initial_activation self) (_parent_connection_nodes self)
           debug_info s.

Definition reset_activation (self : t) : t :=
  set_activation self (_initial_activation self).

(** [self.in_connections.append(c)] and [self.out_connections.append(c)],
    which the code that wires a genome performs on the public lists. *)
Definition append_in (self : t) (c : conn_ref) : t :=
  {| _id := _id self;
     _type := _type self;
     _initial_activation := _initial_activation self;
     _activation := _activation self;
     _function := _function self;
     _parent_connection_nodes := _parent_connection_nodes self;
     in_connections := in_connections self ++ [c];
     out_connections := out_connections self;
     _temp_id := _temp_id self;
     debug_info := debug_info self |}.

Definition append_out (self : t) (c : conn_ref) : t :=
  {| _id := _id self;
     _type := _type self;
     _initial_activation := _initial_activation self;
     _activation := _activation self;
     _function := _function self;
     _parent_connection_nodes := _parent_connection_nodes self;
     in_connections := in_connections self;
     out_connections := out_connections self ++ [c];
     _temp_id := _temp_id self;
     debug_info := debug_info self |}.

(** Everything that changes a node after its construction: the calls of its
    mutating methods and the appends to its two public lists. *)
Inductive step :=
  | SetId (new_id : Z)
  | Activate (x : float)
  | ResetActivation
  | AppendIn (c : conn_ref)
  | AppendOut (c : conn_ref).

Definition run_step (self : t) (st : step) : t :=
  match st with
  | SetId new_id => snd (set_id self new_id)
  | Activate x => activate self x
  | ResetActivation => reset_activation self
  | AppendIn c => append_in self c
  | AppendOut c => append_out self c
  end.

Definition run (self : t) (sts : list step) : t := foldl run_step self sts.

End NodeGene.

(** ** class ConnectionGene *)

Module ConnectionGene.

Record t := {
  _id : option Z;
  _from_node : node_ref;
  _to_node : node_ref;
  weight : float;
  enabled : bool;
  debug_info : option string
}.

Definition __init__ (cid : option Z) (from_node to_node : node_ref)
    (weight : float) (enabled : bool) (debug_info : option string) : t :=
  {| _id := cid;
     _from_node := from_node;
     _to_node := to_node;
     weight := weight;
     enabled := enabled;
     debug_info := debug_info |}.

(** The [id] property: the stored value, [None] or an [int]. *)
Definition id (self : t) : option Z := _id self.

(** The [id] setter; the second component is [self] after the call. *)
Definition set_id (self : t) (new_id : Z) : Outcome unit * t :=
  match _id self with
  | Some _ => (Raises ConnectionIdException, self)
  | None =>
      (Returns (),
       {| _id := Some new_id;
          _from_node := _from_node self;
          _to_node := _to_node self;
          weight := weight self;
          enabled := enabled self;
          debug_info := debug_info self |})
  end.

Definition from_node (self : t) : node_ref := _from_node self.
Definition to_node (self : t) : node_ref := _to_node self.

(** Assignments to the public attributes [weight] and [enabled]. *)
Definition set_weight (self : t) (w : float) : t :=
  {| _id := _id self;
     _from_node := _from_node self;
     _to_node := _to_node self;
     weight := w;
     enabled := enabled self;
     debug_info := debug_info self |}.

Definition set_enabled (self : t) (e : bool) : t :=
  {| _id := _id self;
     _from_node := _from_node self;
     _to_node := _to_node self;
     weight := weight self;
     enabled := e;
     debug_info := debug_info self |}.

(** Everything that changes a connection after its construction. *)
Inductive step :=
  | SetId (new_id : Z)
  | SetWeight (w : float)
  | SetEnabled (e : bool).

Definition run_step (self : t) (st : step) : t :=
  match st with
  | SetId new_id => snd (set_id self new_id)
  | SetWeight w => set_weight self w
  | SetEnabled e => set_enabled self e
  end.

Definition run (self : t) (sts : list step) : t := foldl run_step self sts.

Definition is_SetId (st : step) : bool :=
  match st with SetId _ => true | _ => false end.

End ConnectionGene.

(** ** The heap *)

(** The node objects and the connection objects that exist, by address. *)
Record Heap := {
  nodes : gmap node_ref NodeGene.t;
  conns : gmap conn_ref ConnectionGene.t
}.

(** [n.out_connections.append(c)] and [n.in_connections.append(c)] on the
    node stored at address [n]. *)
Definition append_out_connection (h : Heap) (n : node_ref) (c : conn_ref)
    : Heap :=
  {| nodes := alter (λ self, NodeGene.append_out self c) n (nodes h);
     conns := conns h |}.

Definition append_in_connection (h : Heap) (n : node_ref) (c : conn_ref)
    : Heap :=
  {| nodes := alter (λ self, NodeGene.append_in self c) n (nodes h);
     conns := conns h |}.

(** ** connection_exists *)

(** The loop over [zip(dest_node.in_connections, src_node.out_connections)].
    The right operand of [or] is evaluated only when the left one is false.
    A lookup of an address that the heap does not hold gives [None]; no
    Python reference is ever in that state. *)
Fixpoint connection_exists_loop (h : Heap) (src_node dest_node : NodeGene.t)
    (pairs : list (conn_ref * conn_ref)) : option bool :=
  match pairs with
  | [] => Some false
  | (dest_cin, src_cout) :: pairs' =>
      cin ← conns h !! dest_cin;
      cin_from ← nodes h !! ConnectionGene.from_node cin;
      if NodeGene.py_eq (NodeGene.id cin_from) (NodeGene.id src_node)
      then Some true
      else
        cout ← conns h !! src_cout;
        cout_to ← nodes h !! ConnectionGene.to_node cout;
        if NodeGene.py_eq (NodeGene.id cout_to) (NodeGene.id dest_node)
        then Some true
        else connection_exists_loop h src_node dest_node pairs'
  end.

Definition connection_exists (h : Heap) (src_node dest_node : node_ref)
    : option bool :=
  src ← nodes h !! src_node;
  dest ← nodes h !! dest_node;
  connection_exists_loop h src dest
    (zip (NodeGene.in_connections dest) (NodeGene.out_connections src)).

(** ** align_connections *)

(** [{c.id: c for c in con_list}]: a later gene replaces an earlier one that
    has the same key. *)
Definition dict_by_id (con_list : list ConnectionGene.t)
    : gmap (option Z) ConnectionGene.t :=
  foldl (λ d c, <[ConnectionGene.id c := c]> d) ∅ con_list.

(** [sorted] on a list of keys without repetition, each [None] or an [int].
    Up to one key nothing is compared; from two keys on every key takes part
    in a comparison, and comparing [None] raises [TypeError]. *)
Definition sorted (keys : list (option Z)) : Outcome (list (option Z)) :=
  match keys with
  | [] | [_] => Returns keys
  | _ =>
      match mapM (λ k : option Z, k) keys with
      | Some ints => Returns (Some <$> merge_sort Z.le ints)
      | None => Raises TypeError
      end
  end.

(** [str] of an identity: an [int] in decimal, or [None]. *)
Definition str_id (k : option Z) : string :=
  match k with
  | Some i => pretty i
  | None => "None"
  end.

(** The lines that the loop under [print_alignment] prints, one for each
    pair of [zip(aligned1, aligned2)]. *)
Definition printed_alignment
    (aligned1 aligned2 : list (option ConnectionGene.t)) : list string :=
  (λ '(c1, c2),
     match c1 with Some c => str_id (ConnectionGene.id c) | None => "-" end
     +:+ " | " +:+
     match c2 with Some c => str_id (ConnectionGene.id c) | None => "-" end)
  <$> zip aligned1 aligned2.

(** [align_connections]: what the call returns or raises, and what it has
    written to the standard output.  The genes are read, never changed, so a
    gene stands for itself: the lists hold the records. *)
Definition align_connections (con_list1 con_list2 : list ConnectionGene.t)
    (print_alignment : bool)
    : Outcome (list (option ConnectionGene.t) *
               list (option ConnectionGene.t)) * list string :=
  let con_dict1 := dict_by_id con_list1 in
  let con_dict2 := dict_by_id con_list2 in
  match sorted (elements (dom con_dict1 ∪ dom con_dict2)) with
  | Raises e => (Raises e, [])
  | Returns union =>
      let aligned1 := (λ cid, con_dict1 !! cid) <$> union in
      let aligned2 := (λ cid, con_dict2 !! cid) <$> union in
      (Returns (aligned1, aligned2),
       if print_alignment then printed_alignment aligned1 aligned2 else [])
  end.

(** ** Vocabulary of the statements *)

(** Every gene of the list has an [int] identity, and no two genes of the
    list have the same one. *)
Definition identified (con_list : list ConnectionGene.t) : Prop :=
  Forall (λ c, is_Some (ConnectionGene.id c)) con_list ∧
  NoDup (ConnectionGene.id <$> con_list).

(** The identities that occur in one list or the other, each listed once. *)
Definition distinct_ids (con_list1 con_list2 : list ConnectionGene.t)
    : list (option Z) :=
  remove_dups ((ConnectionGene.id <$> con_list1) ++
               (ConnectionGene.id <$> con_list2)).

(** [slot] is what an aligned list holds for the identity [cid]: the gene of
    [con_list] that has this identity, or [None] when [con_list] has none. *)
Definition gene_or_absent (con_list : list ConnectionGene.t) (cid : Z)
    (slot : option ConnectionGene.t) : Prop :=
  match slot with
  | Some c => c ∈ con_list ∧ ConnectionGene.id c = Some cid
  | None => ∀ c, c ∈ con_list → ConnectionGene.id c ≠ Some cid
  end.

(** ** Concrete objects *)

(** Two nodes [n1] (address 1) and [n2] (address 2) just constructed, and the
    connection [n1 -> n2] (address 1) before and after it is entered in the
    adjacency lists. *)
Definition a_source : uuid.source :=
  {| uuid.hex := λ _, "9f1c2d3e4a5b4c6d8e7f001122334455"; uuid.issued := 0 |}.

Definition n1 : NodeGene.t :=
  (NodeGene.__init__ (Some 0%Z) NodeGene.INPUT (λ x, x) 0 None None a_source).1.

Definition n2 : NodeGene.t :=
  (NodeGene.__init__ (Some 1%Z) NodeGene.OUTPUT (λ x, x) 0 None None a_source).1.

Definition two_fresh_nodes : Heap :=
  {| nodes := <[1%positive := n1]> (<[2%positive := n2]> ∅); conns := ∅ |}.

Definition connection_created : Heap :=
  {| nodes := nodes two_fresh_nodes;
     conns := <[1%positive :=
                 ConnectionGene.__init__ (Some 0%Z) 1 2 1 true None]> ∅ |}.

Definition out_side_only : Heap := append_out_connection connection_created 1 1.
Definition in_side_only : Heap := append_in_connection connection_created 2 1.
Definition both_sides : Heap := append_in_connection out_side_only 2 1.

(** The genes of the example of the alignment: identities 1, 3, 5 in the
    first list and 2, 3, 4 in the second, told apart by their weights. *)
Definition conn (cid : Z) (w : float) : ConnectionGene.t :=
  ConnectionGene.__init__ (Some cid) 1 2 w true None.

Definition genes_135 : list ConnectionGene.t :=
  [conn 1 0.5; conn 3 0.5; conn 5 0.5].

Definition genes_234 : list ConnectionGene.t :=
  [conn 2 0.25; conn 3 0.25; conn 4 0.25].

(** A source whose first two UUIDs differ, but only after the twelfth
    digit. *)
Definition colliding_source : uuid.source :=
  {| uuid.hex := λ k, match k with
                      | O => "0123456789ab4cde8f0123456789abcd"
                      | S _ => "0123456789ab4cde8f0123456789abce"
                      end;
     uuid.issued := 0 |}.

(** A source whose first two UUIDs differ in their first digits. *)
Definition distinct_source : uuid.source :=
  {| uuid.hex := λ k, match k with
                      | O => "0123456789ab4cde8f0123456789abcd"
                      | S _ => "fedcba9876544321a0fedcba98765432"
                      end;
     uuid.issued := 0 |}.

(** ** Vocabulary of the further statements *)

(** A node has a permanent identity and no token, or a token and no
    permanent identity. *)
Definition one_identity (n : NodeGene.t) : Prop :=
  (∃ i, NodeGene._id n = Some i ∧ NodeGene._temp_id n = None) ∨
  (∃ tok, NodeGene._id n = None ∧ NodeGene._temp_id n = Some tok).

(** The first identity that a history assigns to a node, if it assigns
    any. *)
Fixpoint first_node_id (sts : list NodeGene.step) : option Z :=
  match sts with
  | [] => None
  | NodeGene.SetId new_id :: _ => Some new_id
  | _ :: sts' => first_node_id sts'
  end.

(** The same for a connection. *)
Fixpoint first_connection_id (sts : list ConnectionGene.step) : option Z :=
  match sts with
  | [] => None
  | ConnectionGene.SetId new_id :: _ => Some new_id
  | _ :: sts' => first_connection_id sts'
  end.

(** Every reference of the heap leads to an object of the heap, as every
    Python reference does: the connections in the adjacency lists of the
    nodes exist, and so do the end points of the connections. *)
Definition closed (h : Heap) : Prop :=
  map_Forall
    (λ _ n, Forall (λ c, is_Some (conns h !! c))
              (NodeGene.in_connections n ++ NodeGene.out_connections n))
    (nodes h) ∧
  map_Forall
    (λ _ c, is_Some (nodes h !! ConnectionGene.from_node c) ∧
            is_Some (nodes h !! ConnectionGene.to_node c))
    (conns h).

(** The adjacency lists are kept as their names say: what is in
    [in_connections] of the node at an address arrives at that address, and
    what is in its [out_connections] leaves from it. *)
Definition wired (h : Heap) : Prop :=
  map_Forall
    (λ r n,
       Forall (λ c, ConnectionGene.to_node <$> conns h !! c = Some r)
         (NodeGene.in_connections n) ∧
       Forall (λ c, ConnectionGene.from_node <$> conns h !! c = Some r)
         (NodeGene.out_connections n))
    (nodes h).

(** The connection at address [c] exists together with its two end
    points. *)
Definition resolves (h : Heap) (c : conn_ref) : Prop :=
  ∃ conn, conns h !! c = Some conn ∧
          is_Some (nodes h !! ConnectionGene.from_node conn) ∧
          is_Some (nodes h !! ConnectionGene.to_node conn).

(** The two tests of the loop of [connection_exists]: the source of the
    connection [c] has the [id] of [n]; the destination of [c] has the [id]
    of [n]. *)
Definition leaves_from (h : Heap) (c : conn_ref) (n : NodeGene.t) : Prop :=
  ∃ conn node,
    conns h !! c = Some conn ∧
    nodes h !! ConnectionGene.from_node conn = Some node ∧
    NodeGene.py_eq (NodeGene.id node) (NodeGene.id n) = true.

Definition arrives_at (h : Heap) (c : conn_ref) (n : NodeGene.t) : Prop :=
  ∃ conn node,
    conns h !! c = Some conn ∧
    nodes h !! ConnectionGene.to_node conn = Some node ∧
    NodeGene.py_eq (NodeGene.id node) (NodeGene.id n) = true.

(** Every gene of the list has an [int] identity; two genes may share
    one. *)
Definition all_ints (con_list : list ConnectionGene.t) : Prop :=
  Forall (λ c, is_Some (ConnectionGene.id c)) con_list.

(** [<] on two identities that are both [int]. *)
Definition id_lt (a b : option Z) : Prop :=
  match a, b with
  | Some i, Some j => (i < j)%Z
  | _, _ => False
  end.

(** The list is in strictly ascending order of identity. *)
Definition ascending (con_list : list ConnectionGene.t) : Prop :=
  StronglySorted
    (λ c d, id_lt (ConnectionGene.id c) (ConnectionGene.id d)) con_list.

(** [c] is in the list and no gene after it has its identity. *)
Definition last_with_id (con_list : list ConnectionGene.t)
    (c : ConnectionGene.t) : Prop :=
  ∃ l1 l2, con_list = l1 ++ c :: l2 ∧
           ConnectionGene.id c ∉ ConnectionGene.id <$> l2.

(** The example lists in another order, and a list with a repeated
    identity. *)
Definition genes_531 : list ConnectionGene.t :=
  [conn 5 0.5; conn 3 0.5; conn 1 0.5].

Definition genes_133 : list ConnectionGene.t :=
  [conn 1 0.5; conn 3 0.5; conn 3 0.75].

(** Genes that have no identity yet. *)
Definition genes_unset : list ConnectionGene.t :=
  [ConnectionGene.__init__ None 1 2 0.5 true None;
   ConnectionGene.__init__ None 2 1 0.25 true None].

(** * Properties *)

(** ** Node genes *)

Section node_facts.
Import NodeGene.

Lemma run_step_fixed (self : t) (st : step) :
  _type (run_step self st) = _type self ∧
  _function (run_step self st) = _function self ∧
  _initial_activation (run_step self st) = _initial_activation self ∧
  _parent_connection_nodes (run_step self st) = _parent_connection_nodes self.
Proof.
  destruct st; simpl; auto.
  unfold set_id. destruct (_id self); simpl; auto.
Qed.

Lemma run_fixed (sts : list step) (self : t) :
  _type (run self sts) = _type self ∧
  _function (run self sts) = _function self ∧
  _initial_activation (run self sts) = _initial_activation self ∧
  _parent_connection_nodes (run self sts) = _parent_connection_nodes self.
Proof.
  unfold run. revert self.
  induction sts as [|st sts IH]; intros self; simpl; [done|].
  destruct (IH (run_step self st)) as (-> & -> & -> & ->).
  apply run_step_fixed.
Qed.

Lemma init_fields node_id ty f a0 parents dbg s :
  let n := (__init__ node_id ty f a0 parents dbg s).1 in
  _id n = node_id ∧ _type n = ty ∧ _function n = f ∧
  _initial_activation n = a0 ∧ _activation n = a0 ∧
  _parent_connection_nodes n = parents ∧
  in_connections n = [] ∧ out_connections n = [].
Proof. unfold __init__. destruct node_id; simpl; auto 10. Qed.

Lemma foldl_activate_initial (xs : list float) (self : t) :
  _initial_activation (foldl activate self xs) = _initial_activation self.
Proof.
  revert self. induction xs as [|x xs IH]; intros self; simpl; [done|].
  by rewrite IH.
Qed.

End node_facts.

(** C4: once a node gene or a connection gene has a permanent identity, a
    further assignment to [id] raises [NodeIdException], respectively
    [ConnectionIdException], and leaves the object as it was: the identity
    read afterwards is the one that was set first. *)
Theorem set_id_again_raises (n : NodeGene.t) (c : ConnectionGene.t)
    (first_n first_c new_id : Z)
    (Hn : NodeGene._id n = Some first_n)
    (Hc : ConnectionGene._id c = Some first_c) :
  (NodeGene.set_id n new_id = (Raises NodeIdException, n) ∧
   NodeGene.id (NodeGene.set_id n new_id).2 = NodeGene.Int first_n) ∧
  (ConnectionGene.set_id c new_id = (Raises ConnectionIdException, c) ∧
   ConnectionGene.id (ConnectionGene.set_id c new_id).2 = Some first_c).
Proof.
  unfold NodeGene.set_id, ConnectionGene.set_id, NodeGene.id, ConnectionGene.id.
  rewrite Hn, Hc. simpl. by rewrite Hn, Hc.
Qed.

Lemma set_id_again_raises_witness :
  (NodeGene.set_id n1 7 = (Raises NodeIdException, n1) ∧
   NodeGene.id (NodeGene.set_id n1 7).2 = NodeGene.Int 0) ∧
  (ConnectionGene.set_id
     (ConnectionGene.__init__ (Some 4%Z) 1 2 1 true None) 7 =
     (Raises ConnectionIdException,
      ConnectionGene.__init__ (Some 4%Z) 1 2 1 true None) ∧
   ConnectionGene.id
     (ConnectionGene.set_id
        (ConnectionGene.__init__ (Some 4%Z) 1 2 1 true None) 7).2 =
     Some 4%Z).
Proof.
  apply (set_id_again_raises n1
           (ConnectionGene.__init__ (Some 4%Z) 1 2 1 true None) 0 4 7);
    reflexivity.
Defined.

(** An identity assigned through the setter is as permanent as one given to
    the constructor. *)
Lemma set_id_resolves_once (n : NodeGene.t) (first new_id : Z) :
  NodeGene._id n = None →
  let n' := (NodeGene.set_id n first).2 in
  NodeGene.set_id n first = (Returns (), n') ∧
  NodeGene.id n' = NodeGene.Int first ∧
  NodeGene._temp_id n' = None ∧
  NodeGene.set_id n' new_id = (Raises NodeIdException, n').
Proof. intros H. unfold NodeGene.set_id, NodeGene.id. rewrite H. simpl. done. Qed.

(** C6: whatever happened to a node since its construction, reading
    [parent_connection_nodes] raises [NodeParentsException] when the node was
    constructed as INPUT, BIAS or OUTPUT, and returns the pair given to the
    constructor when it was constructed as HIDDEN with a pair. *)
Theorem parent_connection_nodes_by_type (node_id : option Z)
    (ty : NodeGene.Type_) (f : float → float) (a0 : float)
    (parents : option (node_ref * node_ref)) (dbg : option string)
    (s : uuid.source) (sts : list NodeGene.step) :
  let n := NodeGene.run (NodeGene.__init__ node_id ty f a0 parents dbg s).1 sts in
  (ty = NodeGene.INPUT ∨ ty = NodeGene.BIAS ∨ ty = NodeGene.OUTPUT →
   NodeGene.parent_connection_nodes n = Raises NodeParentsException) ∧
  (∀ pair, ty = NodeGene.HIDDEN → parents = Some pair →
   NodeGene.parent_connection_nodes n = Returns (Some pair)).
Proof.
  intros n. unfold NodeGene.parent_connection_nodes.
  destruct (run_fixed sts (NodeGene.__init__ node_id ty f a0 parents dbg s).1)
    as (Hty & _ & _ & Hpar).
  destruct (init_fields node_id ty f a0 parents dbg s)
    as (_ & Hty0 & _ & _ & _ & Hpar0 & _).
  fold n in Hty, Hpar. rewrite Hty, Hpar, Hty0, Hpar0.
  split.
  - intros [-> | [-> | ->]]; by case_decide.
  - intros pair -> ->. case_decide; [done|]. done.
Qed.

Lemma parent_connection_nodes_by_type_witness :
  NodeGene.parent_connection_nodes
    (NodeGene.run
       (NodeGene.__init__ None NodeGene.HIDDEN (λ x, x) 0 (Some (1, 2)%positive)
          None a_source).1
       [NodeGene.Activate 1; NodeGene.SetId 5; NodeGene.AppendIn 1]) =
  Returns (Some (1, 2)%positive) ∧
  NodeGene.parent_connection_nodes
    (NodeGene.run
       (NodeGene.__init__ (Some 0%Z) NodeGene.OUTPUT (λ x, x) 0 None None
          a_source).1
       [NodeGene.Activate 1]) =
  Raises NodeParentsException.
Proof.
  split.
  - apply (proj2 (parent_connection_nodes_by_type None NodeGene.HIDDEN (λ x, x)
             0 (Some (1, 2)%positive) None a_source
             [NodeGene.Activate 1; NodeGene.SetId 5; NodeGene.AppendIn 1]));
      reflexivity.
  - apply (proj1 (parent_connection_nodes_by_type (Some 0%Z) NodeGene.OUTPUT
             (λ x, x) 0 None None a_source [NodeGene.Activate 1])).
    right; right; reflexivity.
Defined.

(** C8: after any number of calls of [activate], [reset_activation] puts the
    initial activation given to the constructor back into the cache. *)
Theorem reset_activation_restores_initial (node_id : option Z)
    (ty : NodeGene.Type_) (f : float → float) (a0 : float)
    (parents : option (node_ref * node_ref)) (dbg : option string)
    (s : uuid.source) (xs : list float) :
  let n0 := (NodeGene.__init__ node_id ty f a0 parents dbg s).1 in
  NodeGene.activation
    (NodeGene.reset_activation (foldl NodeGene.activate n0 xs)) = a0.
Proof.
  intros n0. unfold NodeGene.activation, NodeGene.reset_activation. simpl.
  rewrite foldl_activate_initial.
  apply (init_fields node_id ty f a0 parents dbg s).
Qed.

(** The same after any history of the node, not only calls of [activate]. *)
Lemma reset_activation_after_run (n : NodeGene.t) (sts : list NodeGene.step) :
  NodeGene.activation (NodeGene.reset_activation (NodeGene.run n sts)) =
  NodeGene._initial_activation n.
Proof.
  unfold NodeGene.activation, NodeGene.reset_activation. simpl.
  apply run_fixed.
Qed.

(** C10: the cache of a copy holds the initial activation of the source, not
    what the source has cached: calls of [activate] on the source before the
    copy leave no trace in the copy. *)
Theorem shallow_copy_activation (n : NodeGene.t) (xs : list float)
    (dbg : option string) (s : uuid.source) :
  NodeGene.activation (NodeGene.shallow_copy n dbg s).1 =
    NodeGene._initial_activation n ∧
  NodeGene.activation
    (NodeGene.shallow_copy (foldl NodeGene.activate n xs) dbg s).1 =
    NodeGene._initial_activation n.
Proof.
  unfold NodeGene.shallow_copy, NodeGene.activation. split.
  - apply init_fields.
  - rewrite <- (foldl_activate_initial xs n). apply init_fields.
Qed.

(** A node whose cache has moved away from its initial activation, and its
    copy. *)
Example shallow_copy_activation_differs :
  let n := NodeGene.activate n1 3 in
  let c := (NodeGene.shallow_copy n None a_source).1 in
  NodeGene.activation n = 3%float ∧ NodeGene.activation c = 0%float ∧
  NodeGene.activation c ≠ NodeGene.activation n.
Proof.
  split; [reflexivity|]. split; [reflexivity|].
  intros H. apply (f_equal (λ x, PrimFloat.eqb x 0)) in H.
  vm_compute in H. discriminate.
Qed.

(** What a copy takes from its source: empty adjacency lists, and the type,
    the activation function, the initial activation and the parents of the
    source.  When the source has a permanent identity the copy has the same
    one and no UUID is drawn.  Otherwise the copy is provisional too, and its
    token is the first 12 digits of the UUID drawn at the copy. *)
Lemma shallow_copy_fields (n : NodeGene.t) (dbg : option string)
    (s : uuid.source) :
  let c := (NodeGene.shallow_copy n dbg s).1 in
  let s' := (NodeGene.shallow_copy n dbg s).2 in
  NodeGene.in_connections c = [] ∧
  NodeGene.out_connections c = [] ∧
  NodeGene.type c = NodeGene.type n ∧
  NodeGene._function c = NodeGene._function n ∧
  NodeGene._initial_activation c = NodeGene._initial_activation n ∧
  NodeGene._parent_connection_nodes c = NodeGene._parent_connection_nodes n ∧
  (∀ i, NodeGene._id n = Some i →
     NodeGene.id c = NodeGene.Int i ∧ NodeGene.is_id_temp c = false ∧ s' = s) ∧
  (NodeGene._id n = None →
     NodeGene.id c =
       NodeGene.Str (NodeGene.temp_token (uuid.hex s (uuid.issued s))) ∧
     NodeGene.is_id_temp c = true ∧
     uuid.issued s' = S (uuid.issued s)).
Proof.
  intros c s'. subst c s'.
  unfold NodeGene.shallow_copy, NodeGene.__init__, NodeGene.type,
    NodeGene.id, NodeGene.is_id_temp.
  destruct (NodeGene._id n) as [i|] eqn:Hid; simpl.
  - split_and!; try done. by intros j [= <-].
  - by split_and!.
Qed.

(** C7 on the code: the token of a node without identity is
    [uuid.uuid4().hex[:12]], and nothing compares it with the tokens in use.
    A node is constructed without identity and then copied; the two UUIDs
    drawn are different, but agree on their first 12 digits.  The copy has
    empty adjacency lists and the type, activation function, initial
    activation and parents of the node, and it is provisional as the node is,
    but the token it reads as its [id] is the token of the node, not a
    distinct one. *)
Theorem shallow_copy_token_repeats :
  let n := (NodeGene.__init__ None NodeGene.HIDDEN (λ x, x) 0
              (Some (1, 2)%positive) None colliding_source).1 in
  let s := (NodeGene.__init__ None NodeGene.HIDDEN (λ x, x) 0
              (Some (1, 2)%positive) None colliding_source).2 in
  let c := (NodeGene.shallow_copy n None s).1 in
  uuid.hex colliding_source 0 = "0123456789ab4cde8f0123456789abcd" ∧
  uuid.hex colliding_source 1 = "0123456789ab4cde8f0123456789abce" ∧
  uuid.hex colliding_source 0 ≠ uuid.hex colliding_source 1 ∧
  NodeGene.is_id_temp n = true ∧
  NodeGene.id n = NodeGene.Str "0123456789ab" ∧
  NodeGene.in_connections c = [] ∧
  NodeGene.out_connections c = [] ∧
  NodeGene.type c = NodeGene.type n ∧
  NodeGene._parent_connection_nodes c = NodeGene._parent_connection_nodes n ∧
  NodeGene.is_id_temp c = true ∧
  NodeGene.id c = NodeGene.Str "0123456789ab" ∧
  NodeGene.id c = NodeGene.id n.
Proof.
  intros n s c.
  split; [reflexivity|]. split; [reflexivity|].
  split; [vm_compute; discriminate|].
  repeat (split; [reflexivity|]). reflexivity.
Qed.

(** ** Connection genes *)

Lemma connection_run_keeps_id (sts : list ConnectionGene.step)
    (c : ConnectionGene.t) (i : Z) :
  ConnectionGene._id c = Some i →
  ConnectionGene._id (ConnectionGene.run c sts) = Some i.
Proof.
  unfold ConnectionGene.run. revert c.
  induction sts as [|st sts IH]; intros c Hc; simpl; [done|].
  apply IH. destruct st; simpl; try done.
  unfold ConnectionGene.set_id. by rewrite Hc.
Qed.

Lemma connection_run_without_id (sts : list ConnectionGene.step)
    (c : ConnectionGene.t) :
  Forall (λ st, ConnectionGene.is_SetId st = false) sts →
  ConnectionGene._id (ConnectionGene.run c sts) = ConnectionGene._id c.
Proof.
  unfold ConnectionGene.run. intros Hsts. revert c.
  induction Hsts as [|st sts Hst _ IH]; intros c; simpl; [done|].
  rewrite IH. by destruct st.
Qed.

(** C9: a connection gene constructed with [cid = None] reads [None] as its
    [id], where a node gene constructed without identity reads a token; it
    keeps reading [None] as long as no identity is assigned, the first
    assignment succeeds, and from then on the [id] is the assigned integer. *)
Theorem connection_id_none_until_set (from_node to_node : node_ref)
    (w : float) (e : bool) (dbg : option string)
    (before after : list ConnectionGene.step) (new_id : Z)
    (Hbefore : Forall (λ st, ConnectionGene.is_SetId st = false) before)
    (ty : NodeGene.Type_) (f : float → float) (a0 : float)
    (parents : option (node_ref * node_ref)) (s : uuid.source) :
  let c0 := ConnectionGene.__init__ None from_node to_node w e dbg in
  let c1 := (ConnectionGene.set_id (ConnectionGene.run c0 before) new_id).2 in
  ConnectionGene.id c0 = None ∧
  ConnectionGene.id (ConnectionGene.run c0 before) = None ∧
  ConnectionGene.set_id (ConnectionGene.run c0 before) new_id = (Returns (), c1) ∧
  ConnectionGene.id c1 = Some new_id ∧
  ConnectionGene.id (ConnectionGene.run c1 after) = Some new_id ∧
  NodeGene.id (NodeGene.__init__ None ty f a0 parents dbg s).1 =
    NodeGene.Str (NodeGene.temp_token (uuid.hex s (uuid.issued s))).
Proof.
  intros c0 c1.
  assert (ConnectionGene._id (ConnectionGene.run c0 before) = None) as Hnone
    by by rewrite connection_run_without_id.
  assert (ConnectionGene._id c1 = Some new_id) as Hset.
  { subst c1. unfold ConnectionGene.set_id. by rewrite Hnone. }
  repeat split; try done.
  - subst c1. unfold ConnectionGene.set_id. by rewrite Hnone.
  - by apply connection_run_keeps_id.
Qed.

Lemma connection_id_none_until_set_witness :
  let c0 := ConnectionGene.__init__ None 1 2 1 true None in
  ConnectionGene.id
    (ConnectionGene.run c0
       [ConnectionGene.SetWeight 2; ConnectionGene.SetEnabled false]) = None ∧
  ConnectionGene.id
    (ConnectionGene.run
       (ConnectionGene.set_id
          (ConnectionGene.run c0
             [ConnectionGene.SetWeight 2; ConnectionGene.SetEnabled false])
          9).2
       [ConnectionGene.SetId 10; ConnectionGene.SetWeight 3]) = Some 9%Z.
Proof.
  intros c0.
  assert (Forall (λ st, ConnectionGene.is_SetId st = false)
            [ConnectionGene.SetWeight 2; ConnectionGene.SetEnabled false]) as H
    by (repeat constructor).
  destruct (connection_id_none_until_set 1 2 1 true None
              [ConnectionGene.SetWeight 2; ConnectionGene.SetEnabled false]
              [ConnectionGene.SetId 10; ConnectionGene.SetWeight 3] 9 H
              NodeGene.HIDDEN (λ x, x) 0 None a_source)
    as (_ & H1 & _ & _ & H2 & _).
  exact (conj H1 H2).
Defined.

(** ** connection_exists *)

(** With an empty list on either side [zip] yields nothing, the loop body
    never runs and the answer is [False]. *)
Lemma connection_exists_empty_side (h : Heap) (src_node dest_node : node_ref)
    (src dest : NodeGene.t) :
  nodes h !! src_node = Some src →
  nodes h !! dest_node = Some dest →
  NodeGene.in_connections dest = [] ∨ NodeGene.out_connections src = [] →
  connection_exists h src_node dest_node = Some false.
Proof.
  intros Hs Hd Hempty. unfold connection_exists. rewrite Hs, Hd. simpl.
  destruct Hempty as [-> | ->]; [done|].
  by destruct (NodeGene.in_connections dest).
Qed.

(** C3 on the code: the answer is [False] for two nodes just constructed, it
    is still [False] when the connection [n1 -> n2] is in [n1.out_connections]
    alone or in [n2.in_connections] alone, and it is [True] only when the
    connection is in both lists. *)
Theorem connection_exists_needs_both_sides :
  connection_exists two_fresh_nodes 1 2 = Some false ∧
  NodeGene.out_connections <$> nodes out_side_only !! 1%positive = Some [1%positive] ∧
  connection_exists out_side_only 1 2 = Some false ∧
  NodeGene.in_connections <$> nodes in_side_only !! 2%positive = Some [1%positive] ∧
  connection_exists in_side_only 1 2 = Some false ∧
  connection_exists both_sides 1 2 = Some true.
Proof. repeat split; vm_compute; reflexivity. Qed.

(** ** align_connections *)

Section dictionaries.
Implicit Types (c : ConnectionGene.t) (l : list ConnectionGene.t).
Implicit Types (k : option Z).

(** One more gene at the end of the list is one more assignment. *)
Lemma dict_by_id_snoc l c :
  dict_by_id (l ++ [c]) = <[ConnectionGene.id c := c]> (dict_by_id l).
Proof. unfold dict_by_id. by rewrite foldl_app. Qed.

Lemma dom_dict_by_id l :
  dom (dict_by_id l) = list_to_set (ConnectionGene.id <$> l).
Proof.
  induction l as [|c l IHl] using rev_ind; [done|].
  rewrite dict_by_id_snoc, dom_insert_L, IHl, fmap_app, list_to_set_app_L.
  simpl. rewrite (right_id_L ∅ (∪)). apply (comm_L (∪)).
Qed.

Lemma elem_of_dom_dict_by_id l k :
  k ∈ dom (dict_by_id l) ↔ k ∈ ConnectionGene.id <$> l.
Proof. rewrite dom_dict_by_id. apply elem_of_list_to_set. Qed.

(** The dictionary holds genes of the list, each under its own identity. *)
Lemma dict_by_id_lookup_Some l k c :
  dict_by_id l !! k = Some c → c ∈ l ∧ ConnectionGene.id c = k.
Proof.
  induction l as [|c' l IHl] using rev_ind; [done|].
  rewrite dict_by_id_snoc, lookup_insert. case_decide as Hk.
  - intros [= ->]. split; [|done]. apply elem_of_app. right. by left.
  - intros [Hc Hid]%IHl. split; [|done]. apply elem_of_app. by left.
Qed.

(** Without repeated identities no gene is replaced. *)
Lemma dict_by_id_lookup_elem l c :
  NoDup (ConnectionGene.id <$> l) → c ∈ l →
  dict_by_id l !! ConnectionGene.id c = Some c.
Proof.
  induction l as [|c' l IHl] using rev_ind; [by intros _ ?%elem_of_nil|].
  rewrite fmap_app, dict_by_id_snoc. simpl.
  intros [Hl [Hdisj _]]%NoDup_app [Hc | ->%list_elem_of_singleton]%elem_of_app.
  - rewrite lookup_insert_ne; [by apply IHl|].
    intros Heq. apply (Hdisj (ConnectionGene.id c)).
    + by apply list_elem_of_fmap_2.
    + rewrite <- Heq. by left.
  - apply lookup_insert_eq.
Qed.

Lemma dict_by_id_lookup_None l (cid : Z) :
  dict_by_id l !! Some cid = None →
  ∀ c, c ∈ l → ConnectionGene.id c ≠ Some cid.
Proof.
  intros Hnone c Hc Hid.
  apply not_elem_of_dom in Hnone. apply Hnone.
  apply elem_of_dom_dict_by_id. rewrite <- Hid. by apply list_elem_of_fmap_2.
Qed.

End dictionaries.

Section sorting_keys.

Lemma StronglySorted_le_lt (ints : list Z) :
  NoDup ints → StronglySorted Z.le ints → StronglySorted Z.lt ints.
Proof.
  induction 2 as [|x ints Hsorted IH Hall]; [constructor|].
  apply NoDup_cons in H as [Hx Hnd].
  constructor; [by apply IH|].
  rewrite Forall_forall in Hall. apply Forall_forall. intros y Hy.
  assert (x ≠ y) by (intros ->; done).
  specialize (Hall y Hy). lia.
Qed.

Lemma mapM_id_fmap_Some (keys : list (option Z)) (ints : list Z) :
  mapM (λ k : option Z, k) keys = Some ints → keys = Some <$> ints.
Proof.
  intros H. symmetry. apply (mapM_fmap_Some_inv _ _ _ _ H).
  by intros x y ->.
Qed.

(** On distinct [int] keys [sorted] returns them in strictly ascending
    order. *)
Lemma sorted_ints (keys : list (option Z)) :
  NoDup keys → Forall is_Some keys →
  ∃ ints, sorted keys = Returns (Some <$> ints) ∧
          StronglySorted Z.lt ints ∧ Some <$> ints ≡ₚ keys.
Proof.
  intros Hnd Hall.
  destruct (mapM_is_Some_2 (λ k : option Z, k) keys) as [ints0 Hints0];
    [done|].
  pose proof (mapM_id_fmap_Some _ _ Hints0) as ->.
  assert (sorted (Some <$> ints0) = Returns (Some <$> merge_sort Z.le ints0))
    as Hsorted.
  { unfold sorted. rewrite Hints0. by destruct ints0 as [|? [|? ?]]. }
  exists (merge_sort Z.le ints0). split; [done|]. split.
  - apply StronglySorted_le_lt.
    + rewrite merge_sort_Permutation.
      by apply (NoDup_fmap_1 Some).
    + apply StronglySorted_merge_sort; apply _.
  - by rewrite merge_sort_Permutation.
Qed.

End sorting_keys.

Section alignment.
Implicit Types (A B : list ConnectionGene.t).

Lemma elem_of_union_keys A B (k : option Z) :
  k ∈ elements (dom (dict_by_id A) ∪ dom (dict_by_id B)) ↔
  k ∈ ConnectionGene.id <$> A ∨ k ∈ ConnectionGene.id <$> B.
Proof.
  by rewrite elem_of_elements, elem_of_union, !elem_of_dom_dict_by_id.
Qed.

Lemma union_keys_are_ints A B :
  identified A → identified B →
  Forall is_Some (elements (dom (dict_by_id A) ∪ dom (dict_by_id B))).
Proof.
  intros [HA _] [HB _]. apply Forall_forall. intros k Hk.
  rewrite Forall_forall in HA, HB.
  apply elem_of_union_keys in Hk as [Hk | Hk];
    apply list_elem_of_fmap in Hk as (c & -> & Hc); auto.
Qed.

(** The shape of the result: one slot per identity of the sorted union, read
    from the two dictionaries. *)
Lemma align_connections_shape A B :
  identified A → identified B →
  ∃ ids : list Z,
    (∀ print_alignment, (align_connections A B print_alignment).1 =
       Returns ((λ cid, dict_by_id A !! Some cid) <$> ids,
                (λ cid, dict_by_id B !! Some cid) <$> ids)) ∧
    StronglySorted Z.lt ids ∧
    (∀ cid, cid ∈ ids ↔ Some cid ∈ ConnectionGene.id <$> A ∨
                         Some cid ∈ ConnectionGene.id <$> B) ∧
    length ids = length (distinct_ids A B).
Proof.
  intros HA HB.
  destruct (sorted_ints (elements (dom (dict_by_id A) ∪ dom (dict_by_id B))))
    as (ids & Hsorted & Hlt & Hperm);
    [apply NoDup_elements | by apply union_keys_are_ints |].
  exists ids. split_and!; [|done| |].
  - intros print_alignment. unfold align_connections. rewrite Hsorted.
    simpl. by rewrite <- !list_fmap_compose.
  - intros cid. rewrite <- elem_of_union_keys, <- Hperm.
    split; [apply list_elem_of_fmap_2|].
    intros (cid' & [= ->] & H)%list_elem_of_fmap. done.
  - rewrite <- (length_fmap Some), Hperm. apply Permutation_length.
    apply NoDup_Permutation;
      [apply NoDup_elements | apply NoDup_remove_dups |].
    intros k. unfold distinct_ids.
    by rewrite elem_of_union_keys, elem_of_remove_dups, elem_of_app.
Qed.

Lemma StronglySorted_lt_NoDup (ids : list Z) :
  StronglySorted Z.lt ids → NoDup ids.
Proof.
  induction 1 as [|x ids _ IHids Hall]; constructor; [|done].
  intros Hx. rewrite Forall_forall in Hall. specialize (Hall x Hx). lia.
Qed.

Lemma dict_slot A (cid : Z) :
  gene_or_absent A cid (dict_by_id A !! Some cid).
Proof.
  unfold gene_or_absent. destruct (dict_by_id A !! Some cid) as [c|] eqn:Hc.
  - by apply dict_by_id_lookup_Some.
  - by apply dict_by_id_lookup_None.
Qed.

(** A gene of a list sits in the aligned list at the position of its
    identity and nowhere else. *)
Lemma aligned_once A (ids : list Z) c :
  NoDup ids → identified A → c ∈ A →
  (∀ cid, Some cid ∈ ConnectionGene.id <$> A → cid ∈ ids) →
  ∃ i, ((λ cid, dict_by_id A !! Some cid) <$> ids) !! i = Some (Some c) ∧
       ∀ j, ((λ cid, dict_by_id A !! Some cid) <$> ids) !! j = Some (Some c) →
            j = i.
Proof.
  intros Hnd [Hint Huniq] Hc Hcover.
  rewrite Forall_forall in Hint. destruct (Hint c Hc) as [cid Hcid].
  assert (cid ∈ ids) as [i Hi]%list_elem_of_lookup.
  { apply Hcover. rewrite <- Hcid. by apply list_elem_of_fmap_2. }
  exists i. split.
  - rewrite list_lookup_fmap, Hi. simpl. rewrite <- Hcid.
    by rewrite dict_by_id_lookup_elem.
  - intros j. rewrite list_lookup_fmap.
    destruct (ids !! j) as [cid'|] eqn:Hj; [|done]. simpl.
    intros [= [_ Hid]%dict_by_id_lookup_Some].
    assert (cid' = cid) as -> by congruence.
    by apply (NoDup_lookup ids j i cid).
Qed.

End alignment.

(** C1: for two lists of connection genes with integer identities, unique
    within each list, [align_connections] returns two lists of the same
    length, that length is the number of distinct identities occurring in the
    two inputs, and at no position both lists hold [None]. *)
Theorem align_connections_lengths (A B : list ConnectionGene.t)
    (HA : identified A) (HB : identified B) :
  ∃ aligned1 aligned2,
    (∀ print_alignment,
       (align_connections A B print_alignment).1 =
         Returns (aligned1, aligned2)) ∧
    length aligned1 = length aligned2 ∧
    length aligned1 = length (distinct_ids A B) ∧
    ∀ i, ¬ (aligned1 !! i = Some None ∧ aligned2 !! i = Some None).
Proof.
  destruct (align_connections_shape A B HA HB)
    as (ids & Halign & _ & Hcover & Hlen).
  eexists _, _. split; [exact Halign|].
  rewrite !length_fmap. split_and!; [done..|].
  intros i. rewrite !list_lookup_fmap.
  destruct (ids !! i) as [cid|] eqn:Hi; simpl; [|by intros [? _]].
  intros [[= H1] [= H2]].
  assert (cid ∈ ids) as Hin by (by eapply list_elem_of_lookup_2).
  apply Hcover in Hin as [Hin | Hin];
    apply elem_of_dom_dict_by_id, elem_of_dom in Hin as [c Hc]; congruence.
Qed.

Lemma genes_135_identified : identified genes_135.
Proof.
  split.
  - repeat constructor; by eexists.
  - apply (bool_decide_unpack _). vm_compute. exact I.
Qed.

Lemma genes_234_identified : identified genes_234.
Proof.
  split.
  - repeat constructor; by eexists.
  - apply (bool_decide_unpack _). vm_compute. exact I.
Qed.

Lemma align_connections_lengths_witness :
  identified genes_135 ∧ identified genes_234 ∧
  ∃ aligned1 aligned2,
    (∀ print_alignment,
       (align_connections genes_135 genes_234 print_alignment).1 =
         Returns (aligned1, aligned2)) ∧
    length aligned1 = length aligned2 ∧
    length aligned1 = length (distinct_ids genes_135 genes_234) ∧
    ∀ i, ¬ (aligned1 !! i = Some None ∧ aligned2 !! i = Some None).
Proof.
  split; [exact genes_135_identified|]. split; [exact genes_234_identified|].
  exact (align_connections_lengths genes_135 genes_234
           genes_135_identified genes_234_identified).
Defined.

(** C2: for two lists of connection genes with integer identities, unique
    within each list, the alignment goes through the identities of the two
    lists in strictly ascending order; at the position of an identity each
    output holds the gene of its input list with that identity, or [None]
    when the list has none; every gene of an input is at exactly one position
    of its output.  Lists with identities 1, 3, 5 and 2, 3, 4 are aligned as
    (A,-), (-,B), (A,B), (-,B), (A,-). *)
Theorem align_connections_ascending (A B : list ConnectionGene.t)
    (HA : identified A) (HB : identified B) :
  (∃ (ids : list Z) aligned1 aligned2,
     (∀ print_alignment,
        (align_connections A B print_alignment).1 =
          Returns (aligned1, aligned2)) ∧
     StronglySorted Z.lt ids ∧
     (∀ cid, cid ∈ ids ↔ Some cid ∈ ConnectionGene.id <$> A ∨
                          Some cid ∈ ConnectionGene.id <$> B) ∧
     length aligned1 = length ids ∧
     length aligned2 = length ids ∧
     (∀ i cid slot1 slot2,
        ids !! i = Some cid →
        aligned1 !! i = Some slot1 → aligned2 !! i = Some slot2 →
        gene_or_absent A cid slot1 ∧ gene_or_absent B cid slot2) ∧
     (∀ c, c ∈ A →
        ∃ i, aligned1 !! i = Some (Some c) ∧
             ∀ j, aligned1 !! j = Some (Some c) → j = i) ∧
     (∀ c, c ∈ B →
        ∃ i, aligned2 !! i = Some (Some c) ∧
             ∀ j, aligned2 !! j = Some (Some c) → j = i)) ∧
  (∀ (a1 a3 a5 b2 b3 b4 : ConnectionGene.t) print_alignment,
     ConnectionGene.id <$> [a1; a3; a5] = [Some 1; Some 3; Some 5]%Z →
     ConnectionGene.id <$> [b2; b3; b4] = [Some 2; Some 3; Some 4]%Z →
     (align_connections [a1; a3; a5] [b2; b3; b4] print_alignment).1 =
       Returns ([Some a1; None; Some a3; None; Some a5],
                [None; Some b2; Some b3; Some b4; None])).
Proof.
  split.
  - destruct (align_connections_shape A B HA HB)
      as (ids & Halign & Hlt & Hcover & _).
    pose proof (StronglySorted_lt_NoDup ids Hlt) as Hnd.
    exists ids. eexists _, _. split; [exact Halign|].
    rewrite !length_fmap. split_and!; [done..| | |].
    + intros i cid slot1 slot2 Hi. rewrite !list_lookup_fmap, Hi. simpl.
      intros [= <-] [= <-]. split; apply dict_slot.
    + intros c Hc. apply aligned_once; [done..|].
      intros cid Hcid. apply Hcover. by left.
    + intros c Hc. apply aligned_once; [done..|].
      intros cid Hcid. apply Hcover. by right.
  - intros [i1 ? ? ? ? ?] [i3 ? ? ? ? ?] [i5 ? ? ? ? ?]
           [i2 ? ? ? ? ?] [i3' ? ? ? ? ?] [i4 ? ? ? ? ?] print_alignment.
    unfold ConnectionGene.id. simpl.
    intros [= -> -> ->] [= -> -> ->].
    destruct print_alignment; vm_compute; reflexivity.
Qed.

Lemma align_connections_ascending_witness :
  identified genes_135 ∧ identified genes_234 ∧
  (align_connections genes_135 genes_234 false).1 =
    Returns ([Some (conn 1 0.5); None; Some (conn 3 0.5); None;
              Some (conn 5 0.5)],
             [None; Some (conn 2 0.25); Some (conn 3 0.25);
              Some (conn 4 0.25); None]).
Proof.
  split; [exact genes_135_identified|]. split; [exact genes_234_identified|].
  apply (proj2 (align_connections_ascending genes_135 genes_234
                  genes_135_identified genes_234_identified));
    reflexivity.
Defined.

(** What the call prints for the lists of the example when it is asked
    to. *)
Example align_connections_prints :
  (align_connections genes_135 genes_234 true).2 =
    ["1 | -"; "- | 2"; "3 | 3"; "- | 4"; "5 | -"] ∧
  (align_connections genes_135 genes_234 false).2 = [].
Proof. split; vm_compute; reflexivity. Qed.

(** C5: for two lists of connection genes with integer identities, unique
    within each list, aligning them in the other order gives the same two
    lists, exchanged. *)
Theorem align_connections_swap (A B : list ConnectionGene.t)
    (HA : identified A) (HB : identified B) :
  ∃ aligned1 aligned2,
    ∀ print_alignment print_alignment',
      (align_connections A B print_alignment).1 =
        Returns (aligned1, aligned2) ∧
      (align_connections B A print_alignment').1 =
        Returns (aligned2, aligned1).
Proof.
  destruct (align_connections_shape A B HA HB) as (ids & Halign & _).
  eexists _, _. intros p p'. split; [apply Halign|].
  specialize (Halign p'). revert Halign. unfold align_connections.
  rewrite (comm_L (∪) (dom (dict_by_id B))).
  destruct (sorted _) as [union|e]; [|done].
  simpl. by intros [= <- <-].
Qed.

Lemma align_connections_swap_witness :
  identified genes_135 ∧ identified genes_234 ∧
  ∃ aligned1 aligned2,
    ∀ print_alignment print_alignment',
      (align_connections genes_135 genes_234 print_alignment).1 =
        Returns (aligned1, aligned2) ∧
      (align_connections genes_234 genes_135 print_alignment').1 =
        Returns (aligned2, aligned1).
Proof.
  split; [exact genes_135_identified|]. split; [exact genes_234_identified|].
  exact (align_connections_swap genes_135 genes_234
           genes_135_identified genes_234_identified).
Defined.

(** * Further properties *)

(** ** The identity of a node over its history *)

Section node_identity.
Import NodeGene.

Lemma init_one_identity node_id ty f a0 parents dbg s :
  one_identity (__init__ node_id ty f a0 parents dbg s).1.
Proof.
  unfold one_identity, __init__. destruct node_id as [i|]; simpl.
  - left. by exists i.
  - right. by eexists.
Qed.

Lemma run_step_one_identity (n : t) (st : step) :
  one_identity n → one_identity (run_step n st).
Proof.
  intros Hn. destruct st; simpl; try done.
  unfold set_id. destruct (_id n) as [i|] eqn:Hid; simpl; [done|].
  left. by eexists.
Qed.

Lemma run_one_identity (sts : list step) (n : t) :
  one_identity n → one_identity (run n sts).
Proof.
  unfold run. revert n.
  induction sts as [|st sts IHsts]; intros n Hn; simpl; [done|].
  by apply IHsts, run_step_one_identity.
Qed.

Lemma run_id (sts : list step) (n : t) :
  _id (run n sts) =
  match _id n with Some i => Some i | None => first_node_id sts end.
Proof.
  unfold run. revert n.
  induction sts as [|st sts IHsts]; intros n; simpl.
  { by destruct (_id n). }
  rewrite IHsts. destruct st; simpl; try done.
  unfold set_id. destruct (_id n) eqn:Hid; simpl; by rewrite ?Hid.
Qed.

Lemma run_temp_id (sts : list step) (n : t) :
  _id (run n sts) = None → _temp_id (run n sts) = _temp_id n.
Proof.
  unfold run. revert n.
  induction sts as [|st sts IHsts]; intros n; simpl; [done|].
  intros Hnone. rewrite IHsts by done.
  destruct st; simpl; try done.
  pose proof (run_id sts (run_step n (SetId new_id))) as Hrun.
  unfold run in Hrun. rewrite Hnone in Hrun. revert Hrun. simpl.
  unfold set_id. destruct (_id n) eqn:Hid; simpl; by rewrite ?Hid.
Qed.

End node_identity.

(** X1: at every moment of its life a node gene has exactly one identity:
    a permanent [int], with no token left, or a provisional token, with no
    permanent identity.  [is_id_temp] tells which, and reading [id] gives
    that identity, never [None]. *)
Theorem node_identity_is_exclusive (node_id : option Z)
    (ty : NodeGene.Type_) (f : float → float) (a0 : float)
    (parents : option (node_ref * node_ref)) (dbg : option string)
    (s : uuid.source) (sts : list NodeGene.step) :
  let n := NodeGene.run (NodeGene.__init__ node_id ty f a0 parents dbg s).1 sts in
  (∃ i, NodeGene._id n = Some i ∧ NodeGene._temp_id n = None ∧
        NodeGene.id n = NodeGene.Int i ∧ NodeGene.is_id_temp n = false) ∨
  (∃ tok, NodeGene._id n = None ∧ NodeGene._temp_id n = Some tok ∧
          NodeGene.id n = NodeGene.Str tok ∧ NodeGene.is_id_temp n = true).
Proof.
  intros n.
  destruct (run_one_identity sts _
              (init_one_identity node_id ty f a0 parents dbg s))
    as [(i & Hid & Htmp) | (tok & Hid & Htmp)]; fold n in Hid, Htmp.
  - left. exists i. unfold NodeGene.id, NodeGene.is_id_temp. by rewrite Hid.
  - right. exists tok. unfold NodeGene.id, NodeGene.is_id_temp.
    by rewrite Hid, Htmp.
Qed.

(** X2: the identity read from a node is the one given to the constructor;
    without one, it is the first identity assigned since, whatever was
    assigned later; without any assignment, it is still the token drawn at
    construction. *)
Theorem node_id_is_first_assigned (node_id : option Z)
    (ty : NodeGene.Type_) (f : float → float) (a0 : float)
    (parents : option (node_ref * node_ref)) (dbg : option string)
    (s : uuid.source) (sts : list NodeGene.step) :
  NodeGene.id
    (NodeGene.run (NodeGene.__init__ node_id ty f a0 parents dbg s).1 sts) =
  match node_id, first_node_id sts with
  | Some i, _ => NodeGene.Int i
  | None, Some i => NodeGene.Int i
  | None, None =>
      NodeGene.Str (NodeGene.temp_token (uuid.hex s (uuid.issued s)))
  end.
Proof.
  pose proof (run_id sts (NodeGene.__init__ node_id ty f a0 parents dbg s).1)
    as Hid.
  pose proof (run_temp_id sts
                (NodeGene.__init__ node_id ty f a0 parents dbg s).1) as Htmp.
  unfold NodeGene.id. rewrite Hid in *.
  destruct node_id as [i|]; simpl in *; [done|].
  destruct (first_node_id sts) as [i|]; [done|].
  by rewrite Htmp.
Qed.

(** ** A connection over its history *)

Lemma connection_run_id (sts : list ConnectionGene.step)
    (c : ConnectionGene.t) :
  ConnectionGene._id (ConnectionGene.run c sts) =
  match ConnectionGene._id c with
  | Some i => Some i
  | None => first_connection_id sts
  end.
Proof.
  unfold ConnectionGene.run. revert c.
  induction sts as [|st sts IHsts]; intros c; simpl.
  { by destruct (ConnectionGene._id c). }
  rewrite IHsts. destruct st; simpl; try done.
  unfold ConnectionGene.set_id.
  destruct (ConnectionGene._id c) eqn:Hid; simpl; by rewrite ?Hid.
Qed.

(** X3: the identity read from a connection gene is the one given to the
    constructor; without one it is the first identity assigned since, and
    [None] as long as none was assigned. *)
Theorem connection_id_is_first_assigned (cid : option Z)
    (from_node to_node : node_ref) (w : float) (e : bool)
    (dbg : option string) (sts : list ConnectionGene.step) :
  ConnectionGene.id
    (ConnectionGene.run
       (ConnectionGene.__init__ cid from_node to_node w e dbg) sts) =
  match cid with
  | Some i => Some i
  | None => first_connection_id sts
  end.
Proof. unfold ConnectionGene.id. by rewrite connection_run_id. Qed.

(** X4: the end points of a connection gene are those given to the
    constructor, whatever is assigned to its identity, weight or enabled
    flag afterwards. *)
Theorem connection_end_points_fixed (cid : option Z)
    (from_node to_node : node_ref) (w : float) (e : bool)
    (dbg : option string) (sts : list ConnectionGene.step) :
  let c := ConnectionGene.run
             (ConnectionGene.__init__ cid from_node to_node w e dbg) sts in
  ConnectionGene.from_node c = from_node ∧ ConnectionGene.to_node c = to_node.
Proof.
  assert (∀ c0, ConnectionGene._from_node (ConnectionGene.run c0 sts) =
                  ConnectionGene._from_node c0 ∧
                ConnectionGene._to_node (ConnectionGene.run c0 sts) =
                  ConnectionGene._to_node c0) as Hrun.
  { unfold ConnectionGene.run.
    induction sts as [|st sts IHsts]; intros c0; simpl; [done|].
    destruct (IHsts (ConnectionGene.run_step c0 st)) as [-> ->].
    destruct st; simpl; try done.
    unfold ConnectionGene.set_id. by destruct (ConnectionGene._id c0). }
  intros c. apply Hrun.
Qed.

(** ** The cache of a node *)

Lemma foldl_activate_function (xs : list float) (n : NodeGene.t) :
  NodeGene._function (foldl NodeGene.activate n xs) = NodeGene._function n.
Proof.
  revert n. induction xs as [|x xs IHxs]; intros n; simpl; [done|].
  by rewrite IHxs.
Qed.

(** X5: after a series of calls of [activate] the cache holds the activation
    function applied to the last input; the inputs before it leave no
    trace. *)
Theorem activation_is_of_last_input (n : NodeGene.t) (xs : list float)
    (x : float) :
  NodeGene.activation (foldl NodeGene.activate n (xs ++ [x])) =
  NodeGene._function n x.
Proof.
  rewrite foldl_app. simpl. unfold NodeGene.activation. simpl.
  by rewrite foldl_activate_function.
Qed.

(** ** Copies of nodes with a permanent identity *)

(** X6: for a node with a permanent identity copying is idempotent: the
    copy of a copy is the copy itself, attribute by attribute, and no UUID is
    drawn.  In particular the copy of a node just constructed with an
    identity is equal to that node. *)
Theorem shallow_copy_idempotent (n : NodeGene.t) (i : Z)
    (dbg : option string) (s s' : uuid.source)
    (Hid : NodeGene._id n = Some i)
    (ty : NodeGene.Type_) (f : float → float) (a0 : float)
    (parents : option (node_ref * node_ref)) :
  NodeGene.shallow_copy (NodeGene.shallow_copy n dbg s).1 dbg s' =
    ((NodeGene.shallow_copy n dbg s).1, s') ∧
  NodeGene.shallow_copy
    (NodeGene.__init__ (Some i) ty f a0 parents dbg s).1 dbg s' =
    ((NodeGene.__init__ (Some i) ty f a0 parents dbg s).1, s').
Proof.
  unfold NodeGene.shallow_copy, NodeGene.__init__. by rewrite Hid.
Qed.

Lemma shallow_copy_idempotent_witness :
  NodeGene.shallow_copy (NodeGene.shallow_copy n1 None a_source).1 None
    distinct_source =
  ((NodeGene.shallow_copy n1 None a_source).1, distinct_source).
Proof.
  apply (shallow_copy_idempotent n1 0 None a_source distinct_source
           (eq_refl : NodeGene._id n1 = Some 0%Z)
           NodeGene.INPUT (λ x, x) 0 None).
Defined.

(** ** What connection_exists finds *)

Section existence.
Context (h : Heap) (src dest : NodeGene.t).
Implicit Types (pairs : list (conn_ref * conn_ref)).

Lemma py_eq_refl (a : NodeGene.id_value) : NodeGene.py_eq a a = true.
Proof. destruct a; simpl; by rewrite ?bool_decide_eq_true. Qed.

(** An answer [True] comes from a pair that passes one of the two tests. *)
Lemma connection_exists_loop_true pairs :
  connection_exists_loop h src dest pairs = Some true →
  ∃ i cin cout, pairs !! i = Some (cin, cout) ∧
                (leaves_from h cin src ∨ arrives_at h cout dest).
Proof.
  induction pairs as [|[cin cout] pairs IHpairs]; simpl; [done|].
  destruct (conns h !! cin) as [conn1|] eqn:Hc1; simpl; [|done].
  destruct (nodes h !! ConnectionGene.from_node conn1) as [nf|] eqn:Hnf;
    simpl; [|done].
  destruct (NodeGene.py_eq (NodeGene.id nf) (NodeGene.id src)) eqn:Hfrom.
  { intros _. exists 0, cin, cout. split; [done|]. left. by exists conn1, nf. }
  destruct (conns h !! cout) as [conn2|] eqn:Hc2; simpl; [|done].
  destruct (nodes h !! ConnectionGene.to_node conn2) as [nt|] eqn:Hnt;
    simpl; [|done].
  destruct (NodeGene.py_eq (NodeGene.id nt) (NodeGene.id dest)) eqn:Hto.
  { intros _. exists 0, cin, cout. split; [done|]. right. by exists conn2, nt. }
  intros (i & cin' & cout' & Hi & Htest)%IHpairs.
  by exists (S i), cin', cout'.
Qed.

(** When all references lead somewhere the loop comes to an answer, and a
    pair that passes a test makes it [True]. *)
Lemma connection_exists_loop_closed pairs :
  Forall (λ p, resolves h p.1 ∧ resolves h p.2) pairs →
  ∃ b, connection_exists_loop h src dest pairs = Some b ∧
       ((∃ i cin cout, pairs !! i = Some (cin, cout) ∧
                       (leaves_from h cin src ∨ arrives_at h cout dest)) →
        b = true).
Proof.
  induction 1 as [|[cin cout] pairs [Hcin Hcout] _ IHpairs]; simpl.
  { exists false. split; [done|]. by intros (i & ? & ? & ? & _). }
  destruct Hcin as (conn1 & Hc1 & [nf Hnf] & _).
  destruct Hcout as (conn2 & Hc2 & _ & [nt Hnt]).
  simpl in *. rewrite Hc1. simpl. rewrite Hnf. simpl.
  destruct (NodeGene.py_eq (NodeGene.id nf) (NodeGene.id src)) eqn:Hfrom.
  { by exists true. }
  rewrite Hc2. simpl. rewrite Hnt. simpl.
  destruct (NodeGene.py_eq (NodeGene.id nt) (NodeGene.id dest)) eqn:Hto.
  { by exists true. }
  destruct IHpairs as (b & Hb & Htrue). exists b. split; [done|].
  intros (i & cin' & cout' & Hi & Htest).
  destruct i as [|i]; simpl in Hi.
  - injection Hi as <- <-.
    destruct Htest as [(conn & node & Hc & Hn & Heq) |
                       (conn & node & Hc & Hn & Heq)]; congruence.
  - apply Htrue. by exists i, cin', cout'.
Qed.

End existence.

Lemma closed_adjacency_resolves (h : Heap) (r : node_ref) (n : NodeGene.t)
    (c : conn_ref) :
  closed h → nodes h !! r = Some n →
  c ∈ NodeGene.in_connections n ∨ c ∈ NodeGene.out_connections n →
  resolves h c.
Proof.
  intros [Hnodes Hconns] Hn Hc.
  specialize (Hnodes r n Hn). rewrite Forall_forall in Hnodes.
  destruct (Hnodes c) as [conn Hconn]; [by apply elem_of_app|].
  exists conn. split; [done|]. by apply (Hconns c conn).
Qed.

Lemma closed_pairs_resolve (h : Heap) (s d : node_ref)
    (src dest : NodeGene.t) :
  closed h → nodes h !! s = Some src → nodes h !! d = Some dest →
  Forall (λ p, resolves h p.1 ∧ resolves h p.2)
    (zip (NodeGene.in_connections dest) (NodeGene.out_connections src)).
Proof.
  intros Hclosed Hs Hd. apply Forall_forall. intros [cin cout] Hin.
  apply list_elem_of_lookup in Hin as [i Hi].
  apply lookup_zip_Some in Hi as [Hi1 Hi2].
  split; simpl.
  - apply (closed_adjacency_resolves h d dest); [done..|].
    left. by eapply list_elem_of_lookup_2.
  - apply (closed_adjacency_resolves h s src); [done..|].
    right. by eapply list_elem_of_lookup_2.
Qed.

(** X7: [connection_exists] looks at the two adjacency lists position by
    position.  It answers [True] exactly when at some position that both
    lists have, the connection in [dest_node.in_connections] starts at a node
    with the [id] of [src_node], or the connection at the same position of
    [src_node.out_connections] ends at a node with the [id] of
    [dest_node]. *)
Theorem connection_exists_positional (h : Heap) (s d : node_ref)
    (src dest : NodeGene.t)
    (Hclosed : closed h)
    (Hs : nodes h !! s = Some src) (Hd : nodes h !! d = Some dest) :
  ∃ b, connection_exists h s d = Some b ∧
       (b = true ↔
        ∃ i cin cout,
          NodeGene.in_connections dest !! i = Some cin ∧
          NodeGene.out_connections src !! i = Some cout ∧
          (leaves_from h cin src ∨ arrives_at h cout dest)).
Proof.
  unfold connection_exists. rewrite Hs, Hd. simpl.
  destruct (connection_exists_loop_closed h src dest _
              (closed_pairs_resolve h s d src dest Hclosed Hs Hd))
    as (b & Hb & Htrue).
  exists b. split; [done|]. split.
  - intros ->.
    apply connection_exists_loop_true in Hb
      as (i & cin & cout & [Hi1 Hi2]%lookup_zip_Some & Htest).
    by exists i, cin, cout.
  - intros (i & cin & cout & Hi1 & Hi2 & Htest). apply Htrue.
    exists i, cin, cout. split; [|done]. by apply lookup_zip_Some.
Qed.

(** X8: when the adjacency lists are kept as their names say, an answer
    [True] is backed by a connection that is in one of the two lists: one in
    [dest_node.in_connections], arriving at [dest_node] from a node with the
    [id] of [src_node], or one in [src_node.out_connections], leaving
    [src_node] for a node with the [id] of [dest_node]. *)
Theorem connection_exists_sound (h : Heap) (s d : node_ref)
    (Hwired : wired h)
    (Htrue : connection_exists h s d = Some true) :
  ∃ src dest c conn,
    nodes h !! s = Some src ∧ nodes h !! d = Some dest ∧
    conns h !! c = Some conn ∧
    ((c ∈ NodeGene.in_connections dest ∧
      ConnectionGene.to_node conn = d ∧ leaves_from h c src) ∨
     (c ∈ NodeGene.out_connections src ∧
      ConnectionGene.from_node conn = s ∧ arrives_at h c dest)).
Proof.
  revert Htrue. unfold connection_exists.
  destruct (nodes h !! s) as [src|] eqn:Hs; simpl; [|done].
  destruct (nodes h !! d) as [dest|] eqn:Hd; simpl; [|done].
  intros (i & cin & cout & [Hi1 Hi2]%lookup_zip_Some & Htest)
           %connection_exists_loop_true.
  exists src, dest.
  destruct (Hwired d dest Hd) as [Hin _].
  destruct (Hwired s src Hs) as [_ Hout].
  rewrite Forall_forall in Hin, Hout.
  destruct Htest as [Hfrom | Hto].
  - assert (cin ∈ NodeGene.in_connections dest) as Hcin
      by (by eapply list_elem_of_lookup_2).
    pose proof (Hin cin Hcin) as Hto.
    destruct (conns h !! cin) as [conn|] eqn:Hconn; [|done].
    injection Hto as Hto.
    exists cin, conn. split_and!; [done..|]. by left.
  - assert (cout ∈ NodeGene.out_connections src) as Hcout
      by (by eapply list_elem_of_lookup_2).
    pose proof (Hout cout Hcout) as Hfrom.
    destruct (conns h !! cout) as [conn|] eqn:Hconn; [|done].
    injection Hfrom as Hfrom.
    exists cout, conn. split_and!; [done..|]. by right.
Qed.

(** X9: a connection from [src_node] to [dest_node] that is in both
    adjacency lists, in [src_node.out_connections] and in
    [dest_node.in_connections], is found, at whatever positions it sits in
    the two lists. *)
Theorem connection_exists_complete (h : Heap) (s d : node_ref)
    (src dest : NodeGene.t) (c : conn_ref) (conn : ConnectionGene.t)
    (Hclosed : closed h)
    (Hs : nodes h !! s = Some src) (Hd : nodes h !! d = Some dest)
    (Hc : conns h !! c = Some conn)
    (Hfrom : ConnectionGene.from_node conn = s)
    (Hto : ConnectionGene.to_node conn = d)
    (Hout : c ∈ NodeGene.out_connections src)
    (Hin : c ∈ NodeGene.in_connections dest) :
  connection_exists h s d = Some true.
Proof.
  unfold connection_exists. rewrite Hs, Hd. simpl.
  destruct (connection_exists_loop_closed h src dest _
              (closed_pairs_resolve h s d src dest Hclosed Hs Hd))
    as (b & Hb & Htrue).
  rewrite Hb. f_equal. apply Htrue.
  apply list_elem_of_lookup in Hin as [i Hi].
  apply list_elem_of_lookup in Hout as [j Hj].
  assert (leaves_from h c src) as Hleaves.
  { exists conn, src. rewrite Hfrom. split_and!; [done..|]. apply py_eq_refl. }
  assert (arrives_at h c dest) as Harrives.
  { exists conn, dest. rewrite Hto. split_and!; [done..|]. apply py_eq_refl. }
  destruct (NodeGene.out_connections src !! i) as [cout|] eqn:Hi'.
  - exists i, c, cout. split; [by apply lookup_zip_Some|]. by left.
  - apply lookup_ge_None in Hi'.
    pose proof (lookup_lt_Some _ _ _ Hj) as Hjlt.
    pose proof (lookup_lt_Some _ _ _ Hi) as Hilt.
    destruct (lookup_lt_is_Some_2 (NodeGene.in_connections dest) j)
      as [cin Hcin]; [lia|].
    exists j, cin, c. split; [by apply lookup_zip_Some|]. by right.
Qed.

Lemma both_sides_closed : closed both_sides.
Proof. split; apply (bool_decide_unpack _); vm_compute; exact I. Qed.

Lemma both_sides_wired : wired both_sides.
Proof. apply (bool_decide_unpack _). vm_compute. exact I. Qed.

Lemma out_side_only_closed : closed out_side_only.
Proof. split; apply (bool_decide_unpack _); vm_compute; exact I. Qed.

Lemma connection_exists_positional_witness :
  closed out_side_only ∧
  ∃ b, connection_exists out_side_only 1 2 = Some b ∧
       (b = true ↔
        ∃ i cin cout,
          NodeGene.in_connections n2 !! i = Some cin ∧
          NodeGene.out_connections (NodeGene.append_out n1 1) !! i =
            Some cout ∧
          (leaves_from out_side_only cin (NodeGene.append_out n1 1) ∨
           arrives_at out_side_only cout n2)).
Proof.
  split; [exact out_side_only_closed|].
  apply (connection_exists_positional out_side_only 1 2
           (NodeGene.append_out n1 1) n2 out_side_only_closed);
    reflexivity.
Defined.

Lemma connection_exists_sound_witness :
  wired both_sides ∧
  ∃ src dest c conn,
    nodes both_sides !! 1%positive = Some src ∧
    nodes both_sides !! 2%positive = Some dest ∧
    conns both_sides !! c = Some conn ∧
    ((c ∈ NodeGene.in_connections dest ∧
      ConnectionGene.to_node conn = 2%positive ∧
      leaves_from both_sides c src) ∨
     (c ∈ NodeGene.out_connections src ∧
      ConnectionGene.from_node conn = 1%positive ∧
      arrives_at both_sides c dest)).
Proof.
  split; [exact both_sides_wired|].
  apply (connection_exists_sound both_sides 1 2 both_sides_wired).
  vm_compute. reflexivity.
Defined.

Lemma connection_exists_complete_witness :
  closed both_sides ∧ connection_exists both_sides 1 2 = Some true.
Proof.
  split; [exact both_sides_closed|].
  apply (connection_exists_complete both_sides 1 2
           (NodeGene.append_out n1 1) (NodeGene.append_in n2 1) 1
           (ConnectionGene.__init__ (Some 0%Z) 1 2 1 true None)
           both_sides_closed);
    try reflexivity; by left.
Defined.

(** ** More on align_connections *)

Section more_dictionaries.
Implicit Types (c : ConnectionGene.t) (l : list ConnectionGene.t).

(** With repeated identities the dictionary keeps, for each identity, the
    last gene of the list that has it. *)
Lemma dict_by_id_last l1 c l2 :
  ConnectionGene.id c ∉ ConnectionGene.id <$> l2 →
  dict_by_id (l1 ++ c :: l2) !! ConnectionGene.id c = Some c.
Proof.
  induction l2 as [|x l2 IHl2] using rev_ind; intros Hnot.
  - rewrite dict_by_id_snoc. apply lookup_insert_eq.
  - rewrite fmap_app in Hnot. apply not_elem_of_app in Hnot as [Hl2 Hx].
    replace (l1 ++ c :: l2 ++ [x]) with ((l1 ++ c :: l2) ++ [x])
      by (by rewrite <- app_assoc).
    rewrite dict_by_id_snoc, lookup_insert_ne; [by apply IHl2|].
    intros Heq. apply Hx. rewrite <- Heq. simpl. by left.
Qed.

Lemma dict_by_id_lookup_last l (k : option Z) c :
  dict_by_id l !! k = Some c → last_with_id l c.
Proof.
  induction l as [|x l IHl] using rev_ind; [done|].
  rewrite dict_by_id_snoc, lookup_insert. case_decide as Hk.
  - intros [= ->]. exists l, []. split; [done|]. apply not_elem_of_nil.
  - intros Hc. pose proof (dict_by_id_lookup_Some l k c Hc) as [_ Hid].
    destruct (IHl Hc) as (l1 & l2 & -> & Hnot).
    exists l1, (l2 ++ [x]). split; [by rewrite <- app_assoc|].
    rewrite fmap_app. apply not_elem_of_app. split; [done|].
    simpl. intros Heq%list_elem_of_singleton. congruence.
Qed.

Lemma dict_by_id_unset l :
  Forall (λ c, ConnectionGene.id c = None) l →
  dict_by_id l !! None = last l.
Proof.
  induction l as [|x l _] using rev_ind; [done|].
  intros [_ Hx]%Forall_app. apply Forall_inv in Hx. simpl in Hx.
  rewrite dict_by_id_snoc, last_snoc, Hx. apply lookup_insert_eq.
Qed.

(** With distinct identities the dictionary does not depend on the order of
    the list. *)
Lemma dict_by_id_Permutation l l' :
  NoDup (ConnectionGene.id <$> l) → l ≡ₚ l' → dict_by_id l = dict_by_id l'.
Proof.
  intros Hnd Hperm.
  assert (NoDup (ConnectionGene.id <$> l')) as Hnd' by (by rewrite <- Hperm).
  apply map_eq. intros k.
  destruct (dict_by_id l !! k) as [c|] eqn:Hk.
  - apply dict_by_id_lookup_Some in Hk as [Hc <-].
    symmetry. apply dict_by_id_lookup_elem; [done|]. by rewrite <- Hperm.
  - symmetry. apply not_elem_of_dom. apply not_elem_of_dom in Hk.
    rewrite elem_of_dom_dict_by_id in *. by rewrite <- Hperm.
Qed.

End more_dictionaries.

Section more_alignment.
Implicit Types (A B : list ConnectionGene.t).

Lemma union_keys_all_ints A B :
  all_ints A → all_ints B →
  Forall is_Some (elements (dom (dict_by_id A) ∪ dom (dict_by_id B))).
Proof.
  unfold all_ints. intros HA HB. apply Forall_forall. intros k Hk.
  rewrite Forall_forall in HA, HB.
  apply elem_of_union_keys in Hk as [Hk | Hk];
    apply list_elem_of_fmap in Hk as (c & -> & Hc); auto.
Qed.

(** The shape of the result when identities may repeat. *)
Lemma align_connections_ints A B :
  all_ints A → all_ints B →
  ∃ ids : list Z,
    (∀ print_alignment, (align_connections A B print_alignment).1 =
       Returns ((λ cid, dict_by_id A !! Some cid) <$> ids,
                (λ cid, dict_by_id B !! Some cid) <$> ids)) ∧
    StronglySorted Z.lt ids ∧
    (∀ cid, cid ∈ ids ↔ Some cid ∈ ConnectionGene.id <$> A ∨
                         Some cid ∈ ConnectionGene.id <$> B) ∧
    length ids = length (distinct_ids A B).
Proof.
  intros HA HB.
  destruct (sorted_ints (elements (dom (dict_by_id A) ∪ dom (dict_by_id B))))
    as (ids & Hsorted & Hlt & Hperm);
    [apply NoDup_elements | by apply union_keys_all_ints |].
  exists ids. split_and!; [|done| |].
  - intros print_alignment. unfold align_connections. rewrite Hsorted.
    simpl. by rewrite <- !list_fmap_compose.
  - intros cid. rewrite <- elem_of_union_keys, <- Hperm.
    split; [apply list_elem_of_fmap_2|].
    intros (cid' & [= ->] & H)%list_elem_of_fmap. done.
  - rewrite <- (length_fmap Some), Hperm. apply Permutation_length.
    apply NoDup_Permutation;
      [apply NoDup_elements | apply NoDup_remove_dups |].
    intros k. unfold distinct_ids.
    by rewrite elem_of_union_keys, elem_of_remove_dups, elem_of_app.
Qed.

(** The genes that an aligned list holds are the last genes of their
    identities. *)
Lemma aligned_holds_last A (ids : list Z) c :
  all_ints A →
  (∀ cid, Some cid ∈ ConnectionGene.id <$> A → cid ∈ ids) →
  Some c ∈ (λ cid, dict_by_id A !! Some cid) <$> ids ↔ last_with_id A c.
Proof.
  intros HA Hcover. split.
  - intros (cid & Hc & _)%list_elem_of_fmap.
    by apply (dict_by_id_lookup_last A (Some cid)).
  - intros (l1 & l2 & -> & Hnot).
    unfold all_ints in HA. rewrite Forall_forall in HA.
    destruct (HA c) as [cid Hcid]; [apply elem_of_app; right; by left|].
    apply list_elem_of_fmap. exists cid. split.
    + rewrite <- Hcid. symmetry. by apply dict_by_id_last.
    + apply Hcover. rewrite <- Hcid. apply list_elem_of_fmap_2.
      apply elem_of_app. right. by left.
Qed.

End more_alignment.

(** X10: when one gene of the two lists has no identity and another one has
    an [int] identity, [align_connections] raises [TypeError], and prints
    nothing, whatever [print_alignment] is. *)
Theorem align_connections_mixed_raises (A B : list ConnectionGene.t)
    (c c' : ConnectionGene.t) (print_alignment : bool)
    (Hc : c ∈ A ++ B) (Hnone : ConnectionGene.id c = None)
    (Hc' : c' ∈ A ++ B) (Hint : is_Some (ConnectionGene.id c')) :
  align_connections A B print_alignment = (Raises TypeError, []).
Proof.
  assert (∀ x, x ∈ A ++ B →
            ConnectionGene.id x ∈
              elements (dom (dict_by_id A) ∪ dom (dict_by_id B))) as Hkeys.
  { intros x Hx. apply elem_of_union_keys.
    apply elem_of_app in Hx as [Hx | Hx]; [left | right];
      by apply list_elem_of_fmap_2. }
  pose proof (Hkeys c Hc) as Hk. pose proof (Hkeys c' Hc') as Hk'.
  rewrite Hnone in Hk. destruct Hint as [cid Hcid]. rewrite Hcid in Hk'.
  unfold align_connections.
  destruct (elements (dom (dict_by_id A) ∪ dom (dict_by_id B)))
    as [|k1 [|k2 keys]] eqn:Hel.
  - by apply elem_of_nil in Hk.
  - apply list_elem_of_singleton in Hk, Hk'. congruence.
  - unfold sorted.
    rewrite (mapM_None_2 (λ k : option Z, k) (k1 :: k2 :: keys)); [done|].
    apply Exists_exists. by exists None.
Qed.

Lemma align_connections_mixed_raises_witness :
  align_connections genes_135 genes_unset true = (Raises TypeError, []).
Proof.
  apply (align_connections_mixed_raises genes_135 genes_unset
           (ConnectionGene.__init__ None 1 2 0.5 true None) (conn 1 0.5) true).
  - apply elem_of_app. right. by left.
  - reflexivity.
  - apply elem_of_app. left. by left.
  - by eexists.
Defined.

(** X11: when no gene of the two lists has an identity, nothing is raised:
    all genes fall on the one key [None], and the result has a single
    position, which holds the last gene of each list ([None] for an empty
    list). *)
Theorem align_connections_unset_collapse (A B : list ConnectionGene.t)
    (print_alignment : bool)
    (Hunset : Forall (λ c, ConnectionGene.id c = None) (A ++ B))
    (Hsome : A ++ B ≠ []) :
  (align_connections A B print_alignment).1 = Returns ([last A], [last B]).
Proof.
  apply Forall_app in Hunset as [HA HB].
  assert (dom (dict_by_id A) ∪ dom (dict_by_id B) = {[None]}) as Hdom.
  { apply set_eq. intros k.
    rewrite elem_of_union, !elem_of_dom_dict_by_id, elem_of_singleton.
    rewrite Forall_forall in HA, HB. split.
    - intros [(c & -> & Hc)%list_elem_of_fmap | (c & -> & Hc)%list_elem_of_fmap];
        auto.
    - intros ->. destruct A as [|a A'].
      + destruct B as [|b B']; [done|]. right.
        rewrite <- (HB b) by by left. apply list_elem_of_fmap_2. by left.
      + left. rewrite <- (HA a) by by left. apply list_elem_of_fmap_2.
        by left. }
  unfold align_connections. rewrite Hdom, elements_singleton. simpl.
  by rewrite !dict_by_id_unset.
Qed.

Lemma align_connections_unset_collapse_witness :
  (align_connections genes_unset [] false).1 =
  Returns ([Some (ConnectionGene.__init__ None 2 1 0.25 true None)], [None]).
Proof.
  apply (align_connections_unset_collapse genes_unset [] false).
  - repeat constructor.
  - discriminate.
Defined.

(** X12: with [int] identities that may repeat within a list, the two
    outputs still have one position for each distinct identity, and of the
    genes of a list that share an identity only the last one is in the
    output: a gene is in an output exactly when no later gene of its list has
    its identity. *)
Theorem align_connections_keeps_last (A B : list ConnectionGene.t)
    (HA : all_ints A) (HB : all_ints B) :
  ∃ aligned1 aligned2,
    (∀ print_alignment,
       (align_connections A B print_alignment).1 =
         Returns (aligned1, aligned2)) ∧
    length aligned1 = length (distinct_ids A B) ∧
    length aligned2 = length (distinct_ids A B) ∧
    (∀ c, Some c ∈ aligned1 ↔ last_with_id A c) ∧
    (∀ c, Some c ∈ aligned2 ↔ last_with_id B c).
Proof.
  destruct (align_connections_ints A B HA HB)
    as (ids & Halign & _ & Hcover & Hlen).
  eexists _, _. split; [exact Halign|].
  rewrite !length_fmap. split_and!; [done..| |].
  - intros c. apply aligned_holds_last; [done|].
    intros cid Hcid. apply Hcover. by left.
  - intros c. apply aligned_holds_last; [done|].
    intros cid Hcid. apply Hcover. by right.
Qed.

Lemma genes_133_all_ints : all_ints genes_133.
Proof. repeat constructor; by eexists. Qed.

Lemma align_connections_keeps_last_witness :
  all_ints genes_133 ∧ all_ints genes_234 ∧
  ∃ aligned1 aligned2,
    (∀ print_alignment,
       (align_connections genes_133 genes_234 print_alignment).1 =
         Returns (aligned1, aligned2)) ∧
    length aligned1 = length (distinct_ids genes_133 genes_234) ∧
    length aligned2 = length (distinct_ids genes_133 genes_234) ∧
    (∀ c, Some c ∈ aligned1 ↔ last_with_id genes_133 c) ∧
    (∀ c, Some c ∈ aligned2 ↔ last_with_id genes_234 c).
Proof.
  split; [exact genes_133_all_ints|].
  split; [exact (proj1 genes_234_identified)|].
  exact (align_connections_keeps_last genes_133 genes_234
           genes_133_all_ints (proj1 genes_234_identified)).
Defined.

(** What the call returns for the list with the repeated identity 3: four
    positions for five genes, the first gene with identity 3 is gone. *)
Example align_connections_133 :
  (align_connections genes_133 genes_234 false).1 =
  Returns ([Some (conn 1 0.5); None; Some (conn 3 0.75); None],
           [None; Some (conn 2 0.25); Some (conn 3 0.25);
            Some (conn 4 0.25)]).
Proof. vm_compute. reflexivity. Qed.

(** X13: two genes that the outputs hold at the same position have the same
    identity; the first is a gene of the first input and the second a gene of
    the second input. *)
Theorem align_connections_matches (A B : list ConnectionGene.t)
    (print_alignment : bool)
    (aligned1 aligned2 : list (option ConnectionGene.t))
    (i : nat) (c1 c2 : ConnectionGene.t)
    (Halign : (align_connections A B print_alignment).1 =
                Returns (aligned1, aligned2))
    (H1 : aligned1 !! i = Some (Some c1))
    (H2 : aligned2 !! i = Some (Some c2)) :
  c1 ∈ A ∧ c2 ∈ B ∧ ConnectionGene.id c1 = ConnectionGene.id c2.
Proof.
  revert Halign. unfold align_connections.
  destruct (sorted _) as [union|e]; simpl; [|done].
  intros [= <- <-]. rewrite list_lookup_fmap in H1, H2.
  destruct (union !! i) as [cid|]; [|done]. simpl in *.
  injection H1 as H1. injection H2 as H2.
  apply dict_by_id_lookup_Some in H1 as [? ->], H2 as [? ->]. done.
Qed.

Lemma align_connections_matches_witness :
  conn 3 0.5 ∈ genes_135 ∧ conn 3 0.25 ∈ genes_234 ∧
  ConnectionGene.id (conn 3 0.5) = ConnectionGene.id (conn 3 0.25).
Proof.
  apply (align_connections_matches genes_135 genes_234 false
           [Some (conn 1 0.5); None; Some (conn 3 0.5); None;
            Some (conn 5 0.5)]
           [None; Some (conn 2 0.25); Some (conn 3 0.25);
            Some (conn 4 0.25); None] 2 (conn 3 0.5) (conn 3 0.25));
    [vm_compute | ..]; reflexivity.
Defined.

Section ordered_genes.
Implicit Types (A B L : list ConnectionGene.t) (ids : list Z).

Lemma ascending_NoDup L : ascending L → NoDup L.
Proof.
  induction 1 as [|c L _ IHL Hall]; constructor; [|done].
  intros Hc. rewrite Forall_forall in Hall. specialize (Hall c Hc).
  unfold id_lt in Hall. destruct (ConnectionGene.id c); [lia | done].
Qed.

Lemma ascending_unique L L' :
  ascending L → ascending L' → L ≡ₚ L' → L = L'.
Proof.
  apply StronglySorted_unique_strong. intros c d _ _. unfold id_lt.
  destruct (ConnectionGene.id c), (ConnectionGene.id d); try done. lia.
Qed.

(** The genes read from a dictionary along ascending identities are in
    ascending order. *)
Lemma omap_dict_ascending A ids :
  StronglySorted Z.lt ids →
  ascending (omap (λ cid, dict_by_id A !! Some cid) ids).
Proof.
  induction 1 as [|cid ids _ IHids Hall]; csimpl; [constructor|].
  destruct (dict_by_id A !! Some cid) as [c|] eqn:Hc; [|done].
  constructor; [done|]. apply Forall_forall.
  intros d (cid' & Hcid' & Hd)%list_elem_of_omap.
  rewrite Forall_forall in Hall. specialize (Hall cid' Hcid').
  apply dict_by_id_lookup_Some in Hc as [_ ->], Hd as [_ ->]. done.
Qed.

(** With distinct identities they are the genes of the list, each once. *)
Lemma omap_dict_Permutation A ids :
  identified A → StronglySorted Z.lt ids →
  (∀ cid, Some cid ∈ ConnectionGene.id <$> A → cid ∈ ids) →
  omap (λ cid, dict_by_id A !! Some cid) ids ≡ₚ A.
Proof.
  intros [Hint Huniq] Hids Hcover.
  apply NoDup_Permutation.
  - by apply ascending_NoDup, omap_dict_ascending.
  - by apply (NoDup_fmap_1 ConnectionGene.id).
  - intros c. rewrite list_elem_of_omap. split.
    + intros (cid & _ & Hc). by apply dict_by_id_lookup_Some in Hc as [? _].
    + intros Hc. rewrite Forall_forall in Hint.
      destruct (Hint c Hc) as [cid Hcid]. exists cid. split.
      * apply Hcover. rewrite <- Hcid. by apply list_elem_of_fmap_2.
      * rewrite <- Hcid. by apply dict_by_id_lookup_elem.
Qed.

Lemma fmap_omap_total {X Y : Type} (f : X → option Y) (l : list X) :
  Forall (λ x, is_Some (f x)) l → f <$> l = Some <$> omap f l.
Proof.
  induction 1 as [|x l [y Hy] _ IHl]; csimpl; [done|].
  rewrite Hy. csimpl. by rewrite IHl.
Qed.

Lemma omap_fmap_option {X Y : Type} (f : X → option Y) (l : list X) :
  omap (λ o : option Y, o) (f <$> l) = omap f l.
Proof.
  induction l as [|x l IHl]; csimpl; [done|].
  rewrite IHl. by destruct (f x).
Qed.

Lemma fmap_empty_dict ids :
  (λ cid, dict_by_id [] !! Some cid) <$> ids = replicate (length ids) None.
Proof. induction ids as [|cid ids IHids]; csimpl; [done|]. by rewrite IHids. Qed.

Lemma dict_total_on A ids :
  (∀ cid, cid ∈ ids → Some cid ∈ ConnectionGene.id <$> A) →
  Forall (λ cid, is_Some (dict_by_id A !! Some cid)) ids.
Proof.
  intros Hin. apply Forall_forall. intros cid Hcid.
  by apply elem_of_dom, elem_of_dom_dict_by_id, Hin.
Qed.

End ordered_genes.

(** X14: a list of genes with distinct [int] identities aligned with itself
    gives twice the same list, its genes in ascending order of identity, and
    no position holds [None]. *)
Theorem align_connections_self (A : list ConnectionGene.t)
    (HA : identified A) :
  ∃ L, L ≡ₚ A ∧ ascending L ∧
       ∀ print_alignment,
         (align_connections A A print_alignment).1 =
           Returns (Some <$> L, Some <$> L).
Proof.
  destruct (align_connections_shape A A HA HA)
    as (ids & Halign & Hlt & Hcover & _).
  exists (omap (λ cid, dict_by_id A !! Some cid) ids). split_and!.
  - apply omap_dict_Permutation; [done..|].
    intros cid Hcid. apply Hcover. by left.
  - by apply omap_dict_ascending.
  - intros p. rewrite Halign, <- fmap_omap_total; [done|].
    apply dict_total_on. intros cid Hcid. by apply Hcover in Hcid as [?|?].
Qed.

Lemma align_connections_self_witness :
  identified genes_531 ∧
  ∃ L, L ≡ₚ genes_531 ∧ ascending L ∧
       ∀ print_alignment,
         (align_connections genes_531 genes_531 print_alignment).1 =
           Returns (Some <$> L, Some <$> L).
Proof.
  assert (identified genes_531) as H.
  { split; [repeat constructor; by eexists|].
    apply (bool_decide_unpack _). vm_compute. exact I. }
  split; [exact H|]. exact (align_connections_self genes_531 H).
Defined.

(** X15: with distinct [int] identities within each list the order of the
    genes in the inputs does not matter: the same genes in another order
    give the same result and the same printed lines. *)
Theorem align_connections_order_irrelevant (A A' B B' : list ConnectionGene.t)
    (print_alignment : bool)
    (HA : identified A) (HB : identified B)
    (HAA' : A ≡ₚ A') (HBB' : B ≡ₚ B') :
  align_connections A' B' print_alignment =
  align_connections A B print_alignment.
Proof.
  unfold align_connections.
  by rewrite <- (dict_by_id_Permutation A A' (proj2 HA) HAA'),
             <- (dict_by_id_Permutation B B' (proj2 HB) HBB').
Qed.

Lemma align_connections_order_irrelevant_witness :
  align_connections genes_531 genes_234 true =
  align_connections genes_135 genes_234 true.
Proof.
  apply (align_connections_order_irrelevant genes_135 genes_531
           genes_234 genes_234 true genes_135_identified
           genes_234_identified); [|done].
  symmetry. exact (reverse_Permutation genes_135).
Defined.

(** X16: with distinct [int] identities within each list, the genes that an
    output holds, read from left to right, are the genes of its input in
    ascending order of identity.  So the outputs keep the order of the inputs
    when the inputs are in ascending order of identity; other inputs are
    reordered. *)
Theorem align_connections_reorders (A B : list ConnectionGene.t)
    (HA : identified A) (HB : identified B) :
  ∃ aligned1 aligned2,
    (∀ print_alignment,
       (align_connections A B print_alignment).1 =
         Returns (aligned1, aligned2)) ∧
    omap (λ slot, slot) aligned1 ≡ₚ A ∧
    ascending (omap (λ slot, slot) aligned1) ∧
    (ascending A → omap (λ slot, slot) aligned1 = A) ∧
    omap (λ slot, slot) aligned2 ≡ₚ B ∧
    ascending (omap (λ slot, slot) aligned2) ∧
    (ascending B → omap (λ slot, slot) aligned2 = B).
Proof.
  destruct (align_connections_shape A B HA HB)
    as (ids & Halign & Hlt & Hcover & _).
  eexists _, _. split; [exact Halign|].
  rewrite !omap_fmap_option.
  assert (omap (λ cid, dict_by_id A !! Some cid) ids ≡ₚ A) as HpA.
  { apply omap_dict_Permutation; [done..|].
    intros cid Hcid. apply Hcover. by left. }
  assert (omap (λ cid, dict_by_id B !! Some cid) ids ≡ₚ B) as HpB.
  { apply omap_dict_Permutation; [done..|].
    intros cid Hcid. apply Hcover. by right. }
  pose proof (omap_dict_ascending A ids Hlt) as HaA.
  pose proof (omap_dict_ascending B ids Hlt) as HaB.
  split_and!; try done; intros Hasc; by apply ascending_unique.
Qed.

Lemma genes_135_ascending : ascending genes_135.
Proof. repeat constructor; simpl; lia. Qed.

Lemma align_connections_reorders_witness :
  identified genes_135 ∧ identified genes_234 ∧ ascending genes_135 ∧
  ∃ aligned1 aligned2,
    (∀ print_alignment,
       (align_connections genes_135 genes_234 print_alignment).1 =
         Returns (aligned1, aligned2)) ∧
    omap (λ slot, slot) aligned1 = genes_135.
Proof.
  split; [exact genes_135_identified|]. split; [exact genes_234_identified|].
  split; [exact genes_135_ascending|].
  destruct (align_connections_reorders genes_135 genes_234
              genes_135_identified genes_234_identified)
    as (aligned1 & aligned2 & Halign & _ & _ & Hsame & _).
  exists aligned1, aligned2. split; [exact Halign|].
  exact (Hsame genes_135_ascending).
Defined.

(** Genes given in descending order come out in ascending order. *)
Example align_connections_531 :
  (align_connections genes_531 [] false).1 =
  Returns ([Some (conn 1 0.5); Some (conn 3 0.5); Some (conn 5 0.5)],
           [None; None; None]).
Proof. vm_compute. reflexivity. Qed.

(** X17: aligned with the empty list, a list of genes with distinct [int]
    identities gives its genes in ascending order of identity on its side
    and as many [None] on the other side; two empty lists give two empty
    lists. *)
Theorem align_connections_with_empty (A : list ConnectionGene.t)
    (HA : identified A) :
  ∃ L, L ≡ₚ A ∧ ascending L ∧
       ∀ print_alignment,
         (align_connections A [] print_alignment).1 =
           Returns (Some <$> L, replicate (length A) None) ∧
         (align_connections [] A print_alignment).1 =
           Returns (replicate (length A) None, Some <$> L).
Proof.
  assert (identified []) as Hnil by (split; constructor).
  destruct (align_connections_shape A [] HA Hnil)
    as (ids & Halign & Hlt & Hcover & _).
  destruct (align_connections_shape [] A Hnil HA)
    as (ids' & Halign' & Hlt' & Hcover' & _).
  assert (ids' = ids) as ->.
  { apply (StronglySorted_unique_strong Z.lt); [intros; lia | done..|].
    apply NoDup_Permutation; [by apply StronglySorted_lt_NoDup..|].
    intros cid. rewrite Hcover, Hcover'. tauto. }
  assert (omap (λ cid, dict_by_id A !! Some cid) ids ≡ₚ A) as Hperm.
  { apply omap_dict_Permutation; [done..|].
    intros cid Hcid. apply Hcover. by left. }
  assert ((λ cid, dict_by_id A !! Some cid) <$> ids =
          Some <$> omap (λ cid, dict_by_id A !! Some cid) ids) as Hsome.
  { apply fmap_omap_total, dict_total_on.
    intros cid [Hcid | Hcid]%Hcover; [done|]. by apply elem_of_nil in Hcid. }
  assert (length ids = length A) as Hlen.
  { rewrite <- Hperm.
    rewrite <- (length_fmap Some (omap (λ cid, dict_by_id A !! Some cid) ids)).
    by rewrite <- Hsome, length_fmap. }
  exists (omap (λ cid, dict_by_id A !! Some cid) ids). split_and!; [done| |].
  - by apply omap_dict_ascending.
  - intros p. rewrite Halign, Halign', fmap_empty_dict, Hsome, Hlen. done.
Qed.

Lemma align_connections_with_empty_witness :
  identified genes_135 ∧
  ∃ L, L ≡ₚ genes_135 ∧ ascending L ∧
       ∀ print_alignment,
         (align_connections genes_135 [] print_alignment).1 =
           Returns (Some <$> L, replicate (length genes_135) None) ∧
         (align_connections [] genes_135 print_alignment).1 =
           Returns (replicate (length genes_135) None, Some <$> L).
Proof.
  split; [exact genes_135_identified|].
  exact (align_connections_with_empty genes_135 genes_135_identified).
Defined.

(** ** More on nodes *)

Lemma substring_prefix_length (n : nat) (h : string) :
  n ≤ String.length h →
  String.length (substring 0 n h) = n ∧
  String.prefix (substring 0 n h) h = true.
Proof.
  revert h. induction n as [|n IHn]; intros h Hlen.
  - by destruct h.
  - destruct h as [|a h]; simpl in *; [lia|].
    destruct (IHn h) as [Hl Hp]; [lia|].
    rewrite Hl, Hp. split; [done|]. by destruct (Ascii.ascii_dec a a).
Qed.

(** X18: a node constructed without identity reads as its [id] a token of
    12 characters, the first 12 of the 32 hexadecimal digits of the UUID
    drawn for it. *)
Theorem node_token_is_12_digits (ty : NodeGene.Type_) (f : float → float)
    (a0 : float) (parents : option (node_ref * node_ref))
    (dbg : option string) (s : uuid.source)
    (Hhex : String.length (uuid.hex s (uuid.issued s)) = 32) :
  ∃ tok,
    NodeGene.id (NodeGene.__init__ None ty f a0 parents dbg s).1 =
      NodeGene.Str tok ∧
    String.length tok = 12 ∧
    String.prefix tok (uuid.hex s (uuid.issued s)) = true.
Proof.
  exists (NodeGene.temp_token (uuid.hex s (uuid.issued s))).
  split; [done|]. apply substring_prefix_length. lia.
Qed.

Lemma node_token_is_12_digits_witness :
  ∃ tok,
    NodeGene.id
      (NodeGene.__init__ None NodeGene.HIDDEN (λ x, x) 0 None None
         a_source).1 = NodeGene.Str tok ∧
    String.length tok = 12 ∧
    String.prefix tok (uuid.hex a_source (uuid.issued a_source)) = true.
Proof.
  apply (node_token_is_12_digits NodeGene.HIDDEN (λ x, x) 0 None None
           a_source).
  reflexivity.
Defined.

(** X19: what reading [parent_connection_nodes] gives depends on the type
    and on the constructor's argument alone: on a HIDDEN node it returns that
    argument, also when it is [None] (nothing is raised for a hidden node
    without parents); on any other node it raises [NodeParentsException],
    also when a pair was given to the constructor. *)
Theorem parent_connection_nodes_total (node_id : option Z)
    (ty : NodeGene.Type_) (f : float → float) (a0 : float)
    (parents : option (node_ref * node_ref)) (dbg : option string)
    (s : uuid.source) (sts : list NodeGene.step) :
  NodeGene.parent_connection_nodes
    (NodeGene.run (NodeGene.__init__ node_id ty f a0 parents dbg s).1 sts) =
  match ty with
  | NodeGene.HIDDEN => Returns parents
  | _ => Raises NodeParentsException
  end.
Proof.
  unfold NodeGene.parent_connection_nodes.
  destruct (run_fixed sts (NodeGene.__init__ node_id ty f a0 parents dbg s).1)
    as (-> & _ & _ & ->).
  destruct (init_fields node_id ty f a0 parents dbg s)
    as (_ & -> & _ & _ & _ & -> & _).
  destruct ty; by case_decide.
Qed.

(** X20: the type, the activation function, the initial activation and the
    parents of a node are those given to the constructor for the whole life
    of the node: no assignment of an identity, call of [activate] or
    [reset_activation], or append to an adjacency list changes them. *)
Theorem node_attributes_fixed (node_id : option Z)
    (ty : NodeGene.Type_) (f : float → float) (a0 : float)
    (parents : option (node_ref * node_ref)) (dbg : option string)
    (s : uuid.source) (sts : list NodeGene.step) :
  let n := NodeGene.run (NodeGene.__init__ node_id ty f a0 parents dbg s).1 sts in
  NodeGene.type n = ty ∧
  NodeGene._function n = f ∧
  NodeGene._initial_activation n = a0 ∧
  NodeGene._parent_connection_nodes n = parents.
Proof.
  intros n. unfold NodeGene.type.
  destruct (run_fixed sts (NodeGene.__init__ node_id ty f a0 parents dbg s).1)
    as (Hty & Hf & Ha & Hp).
  fold n in Hty, Hf, Ha, Hp. rewrite Hty, Hf, Ha, Hp.
  destruct (init_fields node_id ty f a0 parents dbg s)
    as (_ & ? & ? & ? & _ & ? & _).
  done.
Qed.
